(** * Live alert feed and map synchronisation of the elephant-alert dashboard

    A shallow embedding of the stateful core of [App.tsx] (with the records
    of [types.ts] and the seed data of [data.ts]):

    - the interval callback that synthesises alerts (the event synthesizer),
    - the [alerts] state (the ledger) and the [highSeverityAlert] state
      (the notification gate) of the [App] component,
    - the three effects of the [MapView] component (the map surface
      controller), run against a log of Leaflet calls.

    JavaScript numbers are embedded as rationals ([Q]).  The state machine
    of the feed is stated over the callback with exact sums, products and
    comparisons ([intervalCallback]); where a property depends on the
    rounding of the code, the callback is given with every operation
    rounded to binary64 ([intervalCallback64]).  React state is a record,
    every handler is a function on it; the two impure primitives of the
    interval callback ([Math.random] and [new Date]) read from an explicit
    world. *)

From Stdlib Require Import QArith Qround Qabs Qpower Lqa DecimalString DecimalPos DecimalZ.
From Stdlib Require Import PrimFloat FloatOps SpecFloat.
From stdpp Require Import base list strings.

Local Open Scope string_scope.
Local Open Scope list_scope.

(** ** Domain model ([types.ts]) *)

Inductive NavPage := Dashboard | Map | Analytics | Alerts | Devices | Users.

Inductive AlertSeverity := High | Medium | Low | Resolved.

Inductive DeviceStatus := Online | Offline | LowBattery.

Record LatLng := { lat : Q; lng : Q }.

Record Alert := {
  alert_id : string;
  timestamp : string;
  alert_location : LatLng;
  severity : AlertSeverity;
  deviceId : string
}.

Record Device := {
  device_id : string;
  status : DeviceStatus;
  battery : Z;
  lastPing : string;
  device_location : LatLng
}.

(** The string value of each enum member, as [types.ts] declares it. *)
Definition AlertSeverity_str (s : AlertSeverity) : string :=
  match s with
  | High => "High" | Medium => "Medium" | Low => "Low" | Resolved => "Resolved"
  end.

Definition DeviceStatus_str (s : DeviceStatus) : string :=
  match s with
  | Online => "Online" | Offline => "Offline" | LowBattery => "Low Battery"
  end.

(** [===] on two members of an enum. *)
Definition severity_eqb (a b : AlertSeverity) : bool :=
  match a, b with
  | High, High | Medium, Medium | Low, Low | Resolved, Resolved => true
  | _, _ => false
  end.

Definition status_eqb (a b : DeviceStatus) : bool :=
  match a, b with
  | Online, Online | Offline, Offline | LowBattery, LowBattery => true
  | _, _ => false
  end.

(** Template-literal conversion of an integral number to a string. *)
Definition Number_toString (z : Z) : string :=
  NilZero.string_of_int (Z.to_int z).

(** ** Seed data ([data.ts])

    The timestamps of the seed records are [formatISO (subHours now h)] of
    the date-fns library; [hoursAgo h] stands for that string. *)

Section SeedData.

Variable hoursAgo : Q -> string.

Definition mockAlerts : list Alert :=
  [ {| alert_id := "A001"; timestamp := hoursAgo 1;
       alert_location := {| lat := 6.8; lng := 80.8 |};
       severity := High; deviceId := "D101" |};
    {| alert_id := "A002"; timestamp := hoursAgo 2;
       alert_location := {| lat := 6.82; lng := 80.81 |};
       severity := Medium; deviceId := "D102" |};
    {| alert_id := "A003"; timestamp := hoursAgo 5;
       alert_location := {| lat := 6.79; lng := 80.78 |};
       severity := Low; deviceId := "D103" |};
    {| alert_id := "A004"; timestamp := hoursAgo 8;
       alert_location := {| lat := 6.81; lng := 80.83 |};
       severity := Resolved; deviceId := "D101" |};
    {| alert_id := "A005"; timestamp := hoursAgo 12;
       alert_location := {| lat := 6.83; lng := 80.79 |};
       severity := Resolved; deviceId := "D104" |} ].

Definition mockDevices : list Device :=
  [ {| device_id := "D101"; status := Online; battery := 89;
       lastPing := hoursAgo 0.1;
       device_location := {| lat := 6.8; lng := 80.8 |} |};
    {| device_id := "D102"; status := Online; battery := 72;
       lastPing := hoursAgo 0.2;
       device_location := {| lat := 6.82; lng := 80.81 |} |};
    {| device_id := "D103"; status := LowBattery; battery := 15;
       lastPing := hoursAgo 1;
       device_location := {| lat := 6.79; lng := 80.78 |} |};
    {| device_id := "D104"; status := Offline; battery := 55;
       lastPing := hoursAgo 6;
       device_location := {| lat := 6.83; lng := 80.79 |} |};
    {| device_id := "D105"; status := Online; battery := 95;
       lastPing := hoursAgo 0.3;
       device_location := {| lat := 6.85; lng := 80.85 |} |} ].

End SeedData.

(** ** State of the [App] component

    One field per [useState] cell that the alert feed reads or writes.  The
    [users] cell is constant and feeds only the user table; it is left out. *)

Record AppState := {
  activePage : NavPage;
  isSidebarOpen : bool;
  alerts : list Alert;
  devices : list Device;
  highSeverityAlert : option Alert;
  selectedDevice : option Device
}.

(** The state setters.  [setAlerts] is only ever called with an updater
    function, the others with a value. *)
Definition setActivePage (p : NavPage) (s : AppState) : AppState :=
  {| activePage := p; isSidebarOpen := isSidebarOpen s; alerts := alerts s;
     devices := devices s; highSeverityAlert := highSeverityAlert s;
     selectedDevice := selectedDevice s |}.

Definition setSidebarOpen (b : bool) (s : AppState) : AppState :=
  {| activePage := activePage s; isSidebarOpen := b; alerts := alerts s;
     devices := devices s; highSeverityAlert := highSeverityAlert s;
     selectedDevice := selectedDevice s |}.

Definition setAlerts (f : list Alert -> list Alert) (s : AppState) : AppState :=
  {| activePage := activePage s; isSidebarOpen := isSidebarOpen s;
     alerts := f (alerts s); devices := devices s;
     highSeverityAlert := highSeverityAlert s;
     selectedDevice := selectedDevice s |}.

Definition setHighSeverityAlert (a : option Alert) (s : AppState) : AppState :=
  {| activePage := activePage s; isSidebarOpen := isSidebarOpen s;
     alerts := alerts s; devices := devices s; highSeverityAlert := a;
     selectedDevice := selectedDevice s |}.

Definition setSelectedDevice (d : option Device) (s : AppState) : AppState :=
  {| activePage := activePage s; isSidebarOpen := isSidebarOpen s;
     alerts := alerts s; devices := devices s;
     highSeverityAlert := highSeverityAlert s; selectedDevice := d |}.

(** The values of the [useState] initialisers. *)
Definition initialState (hoursAgo : Q -> string) : AppState :=
  {| activePage := Dashboard; isSidebarOpen := false;
     alerts := mockAlerts hoursAgo; devices := mockDevices hoursAgo;
     highSeverityAlert := None; selectedDevice := None |}.

(** ** The interval callback

    The callback draws from [Math.random], reads the clock, may throw (a
    property read on [undefined]) and ends in two setter calls.  [World] is
    what it runs against: the sequence of values [Math.random] is going to
    return with the number of draws made so far, the string the clock is
    going to give, and the component state. *)

Record World := {
  random : nat -> Q;
  drawn : nat;
  clock : string;
  app : AppState
}.

Inductive Exn := TypeError.

Inductive Result (A : Type) :=
| Ok (a : A)
| Throw (e : Exn).
Arguments Ok {A} a.
Arguments Throw {A} e.

Definition Eff (A : Type) : Type := World -> Result A * World.

#[global] Instance Eff_ret : MRet Eff := fun A a w => (Ok a, w).

#[global] Instance Eff_bind : MBind Eff := fun A B k m w =>
  match m w with
  | (Ok a, w') => k a w'
  | (Throw e, w') => (Throw e, w')
  end.

Definition throw {A} (e : Exn) : Eff A := fun w => (Throw e, w).

Definition Math_random : Eff Q := fun w =>
  (Ok (random w (drawn w)),
   {| random := random w; drawn := S (drawn w); clock := clock w; app := app w |}).

(** [new Date().toISOString()] *)
Definition Date_toISOString : Eff string := fun w => (Ok (clock w), w).

(** A setter call made from the callback. *)
Definition update (f : AppState -> AppState) : Eff unit := fun w =>
  (Ok tt,
   {| random := random w; drawn := drawn w; clock := clock w; app := f (app w) |}).

(** [Math.floor] *)
Definition Math_floor (x : Q) : Z := Qfloor x.

(** [x > y] on numbers *)
Definition Qgtb (x y : Q) : bool := negb (Qle_bool x y).

(** [arr[k]] for an integral number [k]: [None] is [undefined]. *)
Definition index {A} (arr : list A) (k : Z) : option A :=
  if (0 <=? k)%Z then arr !! Z.to_nat k else None.

(** Reading a property of a value that may be [undefined]. *)
Definition deref {A} (v : option A) : Eff A :=
  match v with
  | Some a => mret a
  | None => throw TypeError
  end.

Definition array_length {A} (arr : list A) : Q := inject_Z (Z.of_nat (length arr)).

(** The body of the function passed to [setInterval]; [devs] is the
    [devices] value the effect closed over.  The object literal is evaluated
    field by field, in source order: the first read of [randomDevice.location]
    comes after the identifier draw and the clock read. *)
Definition intervalCallback (devs : list Device) : Eff unit :=
  r ← Math_random;
  let shouldTriggerAlert := Qgtb r 0.9%Q in
  if shouldTriggerAlert then
    r ← Math_random;
    let randomDevice := index devs (Math_floor (r * array_length devs)%Q) in
    r ← Math_random;
    let id := "A" +:+ Number_toString (Math_floor (r * 1000)%Q) in
    ts ← Date_toISOString;
    d ← deref randomDevice;
    r ← Math_random;
    let la := (lat (device_location d) + (r - 0.5) * 0.01)%Q in
    r ← Math_random;
    let ln := (lng (device_location d) + (r - 0.5) * 0.01)%Q in
    let newAlert :=
      {| alert_id := id; timestamp := ts;
         alert_location := {| lat := la; lng := ln |};
         severity := High; deviceId := device_id d |} in
    update (setAlerts (fun prev => newAlert :: prev));;
    update (setHighSeverityAlert (Some newAlert))
  else mret tt.

(** What one firing of the timer needs from outside. *)
Record TickEnv := { tick_random : nat -> Q; tick_clock : string }.

(** One firing of the timer: the callback run on the current state.  An
    exception that escapes the callback is reported by the host and the
    timer stays armed; the state is whatever the setters made of it. *)
Definition tick (env : TickEnv) (s : AppState) : Result unit * AppState :=
  let '(r, w) :=
    intervalCallback (devices s)
      {| random := tick_random env; drawn := 0; clock := tick_clock env; app := s |} in
  (r, app w).

(** ** Transitions of the [App] component

    Every way the state of [App] changes after the first render: the timer
    and the handlers the component passes to its children. *)

Inductive Event :=
| Tick (env : TickEnv)          (* the [setInterval] callback fires *)
| Acknowledge                   (* [onClose] of [NotificationModal] *)
| SelectDevice (d : Device)     (* [onDeviceSelect] of [DevicesPage] *)
| CloseDeviceDetail             (* [onClose] of [DeviceDetailModal] *)
| Navigate (p : NavPage)        (* a link of [Sidebar] *)
| OpenSidebar                   (* [onMenuClick] of [TopNavbar] *)
| CloseSidebar.                 (* the backdrop and the close button of [Sidebar] *)

Definition step (s : AppState) (e : Event) : AppState :=
  match e with
  | Tick env => snd (tick env s)
  | Acknowledge => setHighSeverityAlert None s
  | SelectDevice d => setSelectedDevice (Some d) s
  | CloseDeviceDetail => setSelectedDevice None s
  | Navigate p => setSidebarOpen false (setActivePage p s)
  | OpenSidebar => setSidebarOpen true s
  | CloseSidebar => setSidebarOpen false s
  end.

(** The state after a sequence of events, oldest first. *)
Definition run (s : AppState) (evs : list Event) : AppState :=
  foldl step s evs.

Inductive reachable (hoursAgo : Q -> string) : AppState -> Prop :=
| reachable_init : reachable hoursAgo (initialState hoursAgo)
| reachable_step s e : reachable hoursAgo s -> reachable hoursAgo (step s e).

(** The alert a firing of the timer hands to the two setters, if any: the
    callback's own computation, without the state. *)
Definition synthesize (devs : list Device) (env : TickEnv) : option Alert :=
  let rnd := tick_random env in
  if Qgtb (rnd 0%nat) 0.9%Q then
    match index devs (Math_floor (rnd 1%nat * array_length devs)%Q) with
    | Some d =>
        Some {| alert_id := "A" +:+ Number_toString (Math_floor (rnd 2%nat * 1000)%Q);
                timestamp := tick_clock env;
                alert_location :=
                  {| lat := (lat (device_location d) + (rnd 3%nat - 0.5) * 0.01)%Q;
                     lng := (lng (device_location d) + (rnd 4%nat - 0.5) * 0.01)%Q |};
                severity := High;
                deviceId := device_id d |}
    | None => None
    end
  else None.

(** The device the callback picks on a firing tick ([randomDevice]). *)
Definition randomDevice (devs : list Device) (env : TickEnv) : option Device :=
  index devs (Math_floor (tick_random env 1%nat * array_length devs)%Q).

(** The alerts a sequence of events appends, oldest first. *)
Fixpoint appended (devs : list Device) (evs : list Event) : list Alert :=
  match evs with
  | [] => []
  | Tick env :: evs' =>
      match synthesize devs env with
      | Some a => a :: appended devs evs'
      | None => appended devs evs'
      end
  | _ :: evs' => appended devs evs'
  end.

Definition is_acknowledge (e : Event) : bool :=
  match e with Acknowledge => true | _ => false end.

(** ** The ledger's read operations, as the components compute them *)

(** [alerts.filter(a => a.deviceId === selectedDevice.id)], the list given to
    [DeviceDetailModal]. *)
Definition byDevice (id : string) (l : list Alert) : list Alert :=
  List.filter (fun a => String.eqb (deviceId a) id) l.

(** The [alerts] prop of [DeviceDetailModal]; [None] when the modal is not
    rendered. *)
Definition DeviceDetailModal_alerts (s : AppState) : option (list Alert) :=
  match selectedDevice s with
  | Some d => Some (byDevice (device_id d) (alerts s))
  | None => None
  end.

(** [alerts.slice(0, 3)] of the dashboard's recent-alerts card. *)
Definition recent (n : nat) (l : list Alert) : list Alert := take n l.

(** The by-device query in the words of the specification: walk the ledger
    front to back and keep an alert exactly when its device id is the given
    one. *)
Fixpoint byDevice_spec (id : string) (l : list Alert) : list Alert :=
  match l with
  | [] => []
  | a :: l' =>
      if decide (deviceId a = id) then a :: byDevice_spec id l'
      else byDevice_spec id l'
  end.

(** ** The [MapView] component

    Leaflet is outside the repository.  Its map objects are handles, its
    calls that touch a map are logged, and a layer group is the list of
    layers added to it, oldest first. *)

Definition MapId := nat.
Definition Container := nat.

Inductive Layer :=
| Marker (position : Q * Q) (statusColorClass : string) (popup : string)
| Circle (position : Q * Q) (color fillColor : string)
         (fillOpacity : Q) (radius : Z) (popup : string).

Inductive Call :=
| CreateMap (m : MapId) (c : Container)       (* [L.map(container)] *)
| SetView (m : MapId) (center : Q * Q) (zoom : Z)
| AddTileLayer (m : MapId)
| AddLayerGroup (m : MapId)
| InvalidateSizeIn (m : MapId) (ms : Z)        (* [setTimeout(() => map.invalidateSize(), ms)] *)
| RemoveMap (m : MapId).                       (* [map.remove()] *)

(** The library's side: the calls made so far, most recent first, and the
    number of maps ever created (the next fresh handle). *)
Record Leaflet := { calls : list Call; next_map : MapId }.

Record MapProps := {
  mp_devices : list Device;
  mp_alerts : list Alert;
  mp_center : Q * Q;
  mp_zoom : Z
}.

(** The three [useRef] cells of one mounted [MapView]. *)
Record Refs := {
  mapContainerRef : option Container;
  mapRef : option MapId;
  dataLayerRef : option (list Layer)
}.

Definition log (c : Call) (lf : Leaflet) : Leaflet :=
  {| calls := c :: calls lf; next_map := next_map lf |}.

(** [L.map(container)]: a fresh handle. *)
Definition L_map (c : Container) (lf : Leaflet) : MapId * Leaflet :=
  (next_map lf, {| calls := CreateMap (next_map lf) c :: calls lf;
                   next_map := S (next_map lf) |}).

(** The body of the first effect (dependency array [[]]). *)
Definition initEffect (p : MapProps) (st : Refs * Leaflet) : Refs * Leaflet :=
  let '(r, lf) := st in
  match mapContainerRef r, mapRef r with
  | Some c, None =>
      let '(map, lf) := L_map c lf in
      let lf := log (SetView map (mp_center p) (mp_zoom p)) lf in
      let lf := log (AddTileLayer map) lf in
      let lf := log (AddLayerGroup map) lf in
      let lf := log (InvalidateSizeIn map 100) lf in
      ({| mapContainerRef := mapContainerRef r; mapRef := Some map;
          dataLayerRef := Some [] |}, lf)
  | _, _ => (r, lf)
  end.

(** The function the first effect returns. *)
Definition initCleanup (st : Refs * Leaflet) : Refs * Leaflet :=
  let '(r, lf) := st in
  match mapRef r with
  | Some map =>
      ({| mapContainerRef := mapContainerRef r; mapRef := None;
          dataLayerRef := dataLayerRef r |}, log (RemoveMap map) lf)
  | None => (r, lf)
  end.

(** The second effect (dependencies [center], [zoom]). *)
Definition cameraEffect (p : MapProps) (st : Refs * Leaflet) : Refs * Leaflet :=
  let '(r, lf) := st in
  match mapRef r with
  | Some map => (r, log (SetView map (mp_center p) (mp_zoom p)) lf)
  | None => (r, lf)
  end.

Definition statusColorClass_of (d : Device) : string :=
  if status_eqb (status d) Online then "bg-green-500"
  else if status_eqb (status d) LowBattery then "bg-yellow-500"
  else "bg-red-500".

(** [L.marker(...).addTo(layerGroup).bindPopup(...)] for one device.  Of the
    icon only the colour class varies; the rest of its markup is fixed. *)
Definition addDeviceMarker (layerGroup : list Layer) (device : Device) : list Layer :=
  layerGroup ++
  [ Marker (lat (device_location device), lng (device_location device))
           (statusColorClass_of device)
           ("<b>Device:</b> " +:+ device_id device +:+ "<br><b>Battery:</b> "
            +:+ Number_toString (battery device) +:+ "%") ].

(** The body of the [alerts.forEach] callback. *)
Definition addAlertCircle (layerGroup : list Layer) (alert : Alert) : list Layer :=
  if negb (severity_eqb (severity alert) Resolved) then
    let color := if severity_eqb (severity alert) High then "red" else "orange" in
    layerGroup ++
    [ Circle (lat (alert_location alert), lng (alert_location alert))
             color color 0.3 200
             ("<b>Alert:</b> " +:+ alert_id alert +:+ "<br><b>Severity:</b> "
              +:+ AlertSeverity_str (severity alert)) ]
  else layerGroup.

(** What the third effect leaves in a layer group: [clearLayers], then the
    two [forEach] loops. *)
Definition syncLayers (devs : list Device) (als : list Alert) : list Layer :=
  let layerGroup : list Layer := [] in
  let layerGroup := foldl addDeviceMarker layerGroup devs in
  foldl addAlertCircle layerGroup als.

(** The third effect (dependencies [devices], [alerts]). *)
Definition overlayEffect (p : MapProps) (st : Refs * Leaflet) : Refs * Leaflet :=
  let '(r, lf) := st in
  match dataLayerRef r with
  | Some _ =>
      ({| mapContainerRef := mapContainerRef r; mapRef := mapRef r;
          dataLayerRef := Some (syncLayers (mp_devices p) (mp_alerts p)) |}, lf)
  | None => (r, lf)
  end.

(** *** Life cycle of one map surface

    React mounts an instance once (fresh refs, the container attached, the
    three effects in source order), re-renders it any number of times and
    unmounts it once (the clean-up of the first effect).  A re-render runs
    the second effect when [center] or [zoom] changed ([camera]) and the
    third when [devices] or [alerts] changed ([overlay]); the first effect
    has no dependency and is not run again.  An event that does not fit the
    current phase cannot happen and is a no-op of [lstep]. *)

Inductive Surface :=
| Unmounted
| Mounted (r : Refs).

Inductive LifeEvent :=
| Mount (c : Container) (p : MapProps)
| Update (p : MapProps) (camera overlay : bool)
| Unmount.

Definition lstep (st : Surface * Leaflet) (e : LifeEvent) : Surface * Leaflet :=
  match fst st, e with
  | Unmounted, Mount c p =>
      let fresh := {| mapContainerRef := Some c; mapRef := None; dataLayerRef := None |} in
      let '(r, lf) := overlayEffect p (cameraEffect p (initEffect p (fresh, snd st))) in
      (Mounted r, lf)
  | Mounted r, Update p camera overlay =>
      let st1 := if camera then cameraEffect p (r, snd st) else (r, snd st) in
      let '(r, lf) := if overlay then overlayEffect p st1 else st1 in
      (Mounted r, lf)
  | Mounted r, Unmount =>
      let '(_, lf) := initCleanup (r, snd st) in
      (Unmounted, lf)
  | _, _ => st
  end.

Definition lrun (st : Surface * Leaflet) (evs : list LifeEvent) : Surface * Leaflet :=
  foldl lstep st evs.

Definition Leaflet0 : Leaflet := {| calls := []; next_map := 0 |}.

Definition is_create (c : Call) : bool :=
  match c with CreateMap _ _ => true | _ => false end.

Definition is_remove (c : Call) : bool :=
  match c with RemoveMap _ => true | _ => false end.

Definition is_remove_of (m : MapId) (c : Call) : bool :=
  match c with RemoveMap m' => Nat.eqb m m' | _ => false end.

Definition is_create_of (m : MapId) (c : Call) : bool :=
  match c with CreateMap m' _ => Nat.eqb m m' | _ => false end.

Definition creations (lf : Leaflet) : nat := length (List.filter is_create (calls lf)).
Definition disposals (lf : Leaflet) : nat := length (List.filter is_remove (calls lf)).

(** The events that take effect in a sequence started in phase [mounted]. *)
Fixpoint mounts (mounted : bool) (evs : list LifeEvent) : nat :=
  match evs with
  | [] => 0
  | Mount _ _ :: evs' => if mounted then mounts true evs' else S (mounts true evs')
  | Unmount :: evs' => mounts false evs'
  | Update _ _ _ :: evs' => mounts mounted evs'
  end.

Fixpoint unmounts (mounted : bool) (evs : list LifeEvent) : nat :=
  match evs with
  | [] => 0
  | Mount _ _ :: evs' => unmounts true evs'
  | Unmount :: evs' => if mounted then S (unmounts false evs') else unmounts false evs'
  | Update _ _ _ :: evs' => unmounts mounted evs'
  end.

(** [n] complete cycles: mount, any re-renders, unmount. *)
Definition rerender (u : MapProps * bool * bool) : LifeEvent :=
  let '(p, camera, overlay) := u in Update p camera overlay.

Fixpoint cycles (n : nat) (c : Container) (p : MapProps)
    (ups : list (MapProps * bool * bool)) : list LifeEvent :=
  match n with
  | O => []
  | S n' => Mount c p :: (rerender <$> ups) ++ Unmount :: cycles n' c p ups
  end.

(** *** The map each page renders *)

(** [<MapView devices={devices} alerts={[]} center={[6.8, 80.8]} zoom={11} />] *)
Definition DashboardPage_MapView (als : list Alert) (devs : list Device) : MapProps :=
  {| mp_devices := devs; mp_alerts := []; mp_center := (6.8, 80.8)%Q; mp_zoom := 11 |}.

(** [<MapView devices={devices} alerts={alerts} center={[6.8, 80.8]} zoom={12} />] *)
Definition MapPage_MapView (als : list Alert) (devs : list Device) : MapProps :=
  {| mp_devices := devs; mp_alerts := als; mp_center := (6.8, 80.8)%Q; mp_zoom := 12 |}.

(** [<MapView key={device.id} devices={[device]} alerts={[]} center={...} zoom={14} />]
    of [DeviceDetailModal]. *)
Definition DeviceDetailModal_MapView (device : Device) : MapProps :=
  {| mp_devices := [device]; mp_alerts := [];
     mp_center := (lat (device_location device), lng (device_location device));
     mp_zoom := 14 |}.

(** The [MapView] of the page [renderPage] selects, if that page has one. *)
Definition renderPage_MapView (s : AppState) : option MapProps :=
  match activePage s with
  | Dashboard => Some (DashboardPage_MapView (alerts s) (devices s))
  | Map => Some (MapPage_MapView (alerts s) (devices s))
  | _ => None
  end.

Definition is_circle (l : Layer) : bool :=
  match l with Circle _ _ _ _ _ _ => true | Marker _ _ _ => false end.

(** The overlay set in the words of the specification. *)
Definition marker_spec (d : Device) : Layer :=
  Marker (lat (device_location d), lng (device_location d))
         match status d with
         | Online => "bg-green-500"
         | LowBattery => "bg-yellow-500"
         | Offline => "bg-red-500"
         end
         ("<b>Device:</b> " +:+ device_id d +:+ "<br><b>Battery:</b> "
          +:+ Number_toString (battery d) +:+ "%").

Definition circle_spec (a : Alert) : Layer :=
  let color := match severity a with High => "red" | _ => "orange" end in
  Circle (lat (alert_location a), lng (alert_location a)) color color 0.3 200
         ("<b>Alert:</b> " +:+ alert_id a +:+ "<br><b>Severity:</b> "
          +:+ AlertSeverity_str (severity a)).

Definition not_resolved (a : Alert) : bool :=
  match severity a with Resolved => false | _ => true end.

Definition overlay_spec (devs : list Device) (als : list Alert) : list Layer :=
  (marker_spec <$> devs) ++ (circle_spec <$> List.filter not_resolved als).

Definition is_mounted (sf : Surface) : bool :=
  match sf with Mounted _ => true | Unmounted => false end.

(** How often handle [m] was created, and how often removed. *)
Definition creations_of (m : MapId) (lf : Leaflet) : nat :=
  length (List.filter (is_create_of m) (calls lf)).

Definition disposals_of (m : MapId) (lf : Leaflet) : nat :=
  length (List.filter (is_remove_of m) (calls lf)).

(** The handle a mounted surface holds. *)
Definition live_map (sf : Surface) : option MapId :=
  match sf with Mounted r => mapRef r | Unmounted => None end.

(** What holds between a surface and the library between two events: every
    handle below [next_map] was created once, nothing else was created; the
    handle of a mounted surface is one of them and not removed yet, every
    other created handle was removed once. *)
Definition lifecycle_inv (st : Surface * Leaflet) : Prop :=
  let '(sf, lf) := st in
  match sf with
  | Mounted r =>
      (exists m0, mapRef r = Some m0 /\ (m0 < next_map lf)%nat) /\
      is_Some (dataLayerRef r)
  | Unmounted => True
  end /\
  forall m,
    creations_of m lf = (if (m <? next_map lf)%nat then 1%nat else 0%nat) /\
    disposals_of m lf =
      (if decide (live_map sf = Some m) then 0%nat else creations_of m lf).

(** ** The callback with the arithmetic of the code

    A JavaScript number is a binary64 value and every operation on numbers
    rounds its exact result to the nearest one, ties to the even
    significand.  [round64] is that rounding on the rationals, with 53
    significant bits and no bound on the exponent: it is the rounding of
    the code wherever the result has a magnitude between 2^-1022 and
    2^1024 or is exact, which is every operation of the callback on
    binary64 draws and coordinates. *)

Definition pow2 (e : Z) : Q := Qpower 2 e.

(** The integer part of the binary logarithm of the magnitude of [x]
    (for [x] other than zero). *)
Definition ilog2 (x : Q) : Z :=
  let k := (Z.log2 (Z.abs (Qnum x)) - Z.log2 (Zpos (Qden x)))%Z in
  if Qle_bool (pow2 k) (Qabs x) then k else (k - 1)%Z.

(** The nearest integer, the even one of two nearest. *)
Definition rne (m : Q) : Z :=
  let f := Qfloor m in
  match ((m - inject_Z f) ?= (1 # 2))%Q with
  | Lt => f
  | Gt => (f + 1)%Z
  | Eq => if Z.even f then f else (f + 1)%Z
  end.

Definition round64 (x : Q) : Q :=
  if Qeq_bool x 0 then 0%Q
  else let e := (ilog2 x - 52)%Z in (inject_Z (rne (x / pow2 e)) * pow2 e)%Q.


(** [x + y], [x - y] and [x * y] on numbers. *)
Definition js_add (x y : Q) : Q := round64 (x + y)%Q.
Definition js_sub (x y : Q) : Q := round64 (x - y)%Q.
Definition js_mul (x y : Q) : Q := round64 (x * y)%Q.

(** The value of a finite primitive binary64 float, to compare [round64]
    with the arithmetic of the machine. *)
Definition Q_of_float (f : PrimFloat.float) : option Q :=
  match Prim2SF f with
  | S754_zero _ => Some 0%Q
  | S754_finite s m e =>
      Some ((if s then -1 else 1) * inject_Z (Zpos m) * pow2 e)%Q
  | _ => None
  end.






(** ** Presentation helpers of the tables, cards and modals *)

(** [getSeverityClass]: the [switch] compares the string value of its
    argument with the four members of [AlertSeverity]. *)
Definition getSeverityClass (severity : string) : string :=
  if String.eqb severity "High" then "bg-red-500/20 text-red-400 border-red-500/30"
  else if String.eqb severity "Medium" then "bg-yellow-500/20 text-yellow-400 border-yellow-500/30"
  else if String.eqb severity "Low" then "bg-blue-500/20 text-blue-400 border-blue-500/30"
  else if String.eqb severity "Resolved" then "bg-green-500/20 text-green-400 border-green-500/30"
  else "bg-gray-500/20 text-gray-400 border-gray-500/30".

(** [getStatusClass], called with a device status or with the status of a
    user (['Active'] or ['Inactive']). *)
Definition getStatusClass (status : string) : string :=
  if String.eqb status "Online" || String.eqb status "Active"
  then "bg-green-500/20 text-green-400"
  else if String.eqb status "Low Battery"
  then "bg-yellow-500/20 text-yellow-400"
  else if String.eqb status "Offline" || String.eqb status "Inactive"
  then "bg-red-500/20 text-red-400"
  else "bg-gray-500/20 text-gray-400".

(** [batteryColor] of [DeviceStatusCard] and of [DeviceDetailModal] (the
    same expression in both). *)
Definition batteryColor (device : Device) : string :=
  if (60 <? battery device)%Z then "text-neon-green"
  else if (20 <? battery device)%Z then "text-yellow-400"
  else "text-red-500".

(** The order of the three battery colours, worst first. *)
Definition batteryColor_rank (c : string) : nat :=
  if String.eqb c "text-neon-green" then 2
  else if String.eqb c "text-yellow-400" then 1
  else 0.

(** [devices.filter(d => d.status === 'Online').length] of [DashboardPage]. *)
Definition activeDevices (devs : list Device) : nat :=
  length (List.filter (fun d => String.eqb (DeviceStatus_str (status d)) "Online") devs).

(** The branch [alerts.length > 0 ? ... : ...] of [DeviceDetailModal]:
    [true] when the "No alerts for this device." line is rendered. *)
Definition noAlertsLine (als : list Alert) : bool := negb (0 <? length als)%nat.

(** A marker drawn with the colour class of an online device. *)
Definition is_green_marker (l : Layer) : bool :=
  match l with
  | Marker _ c _ => String.eqb c "bg-green-500"
  | Circle _ _ _ _ _ _ => false
  end.

(** *** The sidebar *)

Definition NavPage_eqb (a b : NavPage) : bool :=
  match a, b with
  | Dashboard, Dashboard | Map, Map | Analytics, Analytics
  | Alerts, Alerts | Devices, Devices | Users, Users => true
  | _, _ => false
  end.

(** [navItems], each with its page and label. *)
Definition navItems : list (NavPage * string) :=
  [ (Dashboard, "Dashboard"); (Map, "Map"); (Analytics, "Analytics");
    (Alerts, "Alerts"); (Devices, "Devices"); (Users, "Users") ].

Definition baseClasses : string :=
  "flex items-center p-3 my-1 rounded-lg transition-colors duration-200".
Definition activeClasses : string := "bg-neon-green text-dark-bg font-semibold".
Definition inactiveClasses : string :=
  "text-gray-400 hover:bg-dark-border hover:text-gray-100".

(** The [className] of the link of one item. *)
Definition navItem_className (active : NavPage) (item : NavPage * string) : string :=
  baseClasses +:+ " " +:+
  (if NavPage_eqb active (fst item) then activeClasses else inactiveClasses).

(** The [onClick] of the link of one item. *)
Definition navItem_onClick (item : NavPage * string) : Event := Navigate (fst item).

(** The items rendered with the active classes. *)
Definition highlighted (s : AppState) : list (NavPage * string) :=
  List.filter
    (fun item => String.eqb (navItem_className (activePage s) item)
                   (baseClasses +:+ " " +:+ activeClasses))
    navItems.

(** ** The timer of the [App] effect

    [setInterval] and [clearInterval] are the host's.  The calls are
    logged, most recent first; [armed] is the set of intervals the host
    holds after a log. *)

Inductive TimerCall :=
| SetInterval (id : nat) (ms : Z)
| ClearInterval (id : nat).

Record Timers := { timer_calls : list TimerCall; next_timer : nat }.

Definition setInterval (ms : Z) (tm : Timers) : nat * Timers :=
  (next_timer tm,
   {| timer_calls := SetInterval (next_timer tm) ms :: timer_calls tm;
      next_timer := S (next_timer tm) |}).

Definition clearInterval (id : nat) (tm : Timers) : Timers :=
  {| timer_calls := ClearInterval id :: timer_calls tm; next_timer := next_timer tm |}.

Fixpoint armed (calls : list TimerCall) : list (nat * Z) :=
  match calls with
  | [] => []
  | SetInterval id ms :: older => (id, ms) :: armed older
  | ClearInterval id :: older =>
      List.filter (fun x => negb (Nat.eqb (fst x) id)) (armed older)
  end.

(** The effect body arms the timer (period 15000) and returns the id its
    clean-up closes over. *)
Definition intervalEffect (tm : Timers) : nat * Timers := setInterval 15000 tm.

Definition intervalCleanup (interval : nat) (tm : Timers) : Timers :=
  clearInterval interval tm.

(** [App] is mounted once; the effect is run again (clean-up first) when
    [devices] changes, and cleaned up at the unmount. *)
Inductive AppPhase :=
| AppUnmounted
| AppMounted (interval : nat).

Inductive AppLifeEvent := AppMount | AppDevicesChange | AppUnmount.

Definition astep (st : AppPhase * Timers) (e : AppLifeEvent) : AppPhase * Timers :=
  match fst st, e with
  | AppUnmounted, AppMount =>
      let '(i, tm) := intervalEffect (snd st) in (AppMounted i, tm)
  | AppMounted i, AppDevicesChange =>
      let '(j, tm) := intervalEffect (intervalCleanup i (snd st)) in (AppMounted j, tm)
  | AppMounted i, AppUnmount => (AppUnmounted, intervalCleanup i (snd st))
  | _, _ => st
  end.

Definition arun (st : AppPhase * Timers) (evs : list AppLifeEvent) : AppPhase * Timers :=
  foldl astep st evs.

Definition Timers0 : Timers := {| timer_calls := []; next_timer := 0 |}.

(** ** Reading the Leaflet log *)

(** The map a call is made on. *)
Definition target (c : Call) : MapId :=
  match c with
  | CreateMap m _ | SetView m _ _ | AddTileLayer m | AddLayerGroup m
  | InvalidateSizeIn m _ | RemoveMap m => m
  end.

(** The calls of a mount that finds its container, most recent first. *)
Definition mount_calls (n : MapId) (c : Container) (p : MapProps) : list Call :=
  [ SetView n (mp_center p) (mp_zoom p); InvalidateSizeIn n 100;
    AddLayerGroup n; AddTileLayer n;
    SetView n (mp_center p) (mp_zoom p); CreateMap n c ].

(** No call in the log is made on a map that an earlier call removed. *)
Fixpoint no_use_after_remove (cs : list Call) : bool :=
  match cs with
  | [] => true
  | c :: older =>
      negb (existsb (is_remove_of (target c)) older) && no_use_after_remove older
  end.

(** Every call in the log is the creation of its map or is made on a map
    that an earlier call created. *)
Fixpoint no_use_before_create (cs : list Call) : bool :=
  match cs with
  | [] => true
  | c :: older =>
      (is_create c || existsb (is_create_of (target c)) older)
      && no_use_before_create older
  end.

(** The props whose camera effect and whose overlay effect ran last, over a
    sequence of life-cycle events; [None] while the surface is unmounted. *)
Definition synced_step (cur : option (MapProps * MapProps)) (e : LifeEvent)
  : option (MapProps * MapProps) :=
  match cur, e with
  | None, Mount _ p => Some (p, p)
  | Some (pc, po), Update p camera overlay =>
      Some (if camera then p else pc, if overlay then p else po)
  | Some _, Unmount => None
  | _, _ => cur
  end.

Definition synced (evs : list LifeEvent) : option (MapProps * MapProps) :=
  foldl synced_step None evs.

Definition is_tileLayer_of (m : MapId) (c : Call) : bool :=
  match c with AddTileLayer m' => Nat.eqb m m' | _ => false end.

Definition is_layerGroup_of (m : MapId) (c : Call) : bool :=
  match c with AddLayerGroup m' => Nat.eqb m m' | _ => false end.

Definition is_invalidate_of (m : MapId) (c : Call) : bool :=
  match c with InvalidateSizeIn m' _ => Nat.eqb m m' | _ => false end.

Definition is_invalidate_100 (c : Call) : bool :=
  match c with InvalidateSizeIn _ ms => (ms =? 100)%Z | _ => true end.

Definition count_calls (f : Call -> bool) (lf : Leaflet) : nat :=
  length (List.filter f (calls lf)).

(** ** Sample inputs *)

Definition sample_hoursAgo (h : Q) : string := "2024-05-01T09:00:00+05:30".

(** The values [Math.random] returns, in order; zero once the list is used up. *)
Definition draws (l : list Q) : nat -> Q := fun n => List.nth n l 0%Q.

(** A firing tick: the second draw picks the device at index 1. *)
Definition firing_env : TickEnv :=
  {| tick_random := draws [0.95; 0.3; 0.417; 0.25; 0.75]%Q;
     tick_clock := "2024-05-01T04:30:15.000Z" |}.

(** Another firing tick, with the lowest latitude noise; it picks index 4. *)
Definition second_env : TickEnv :=
  {| tick_random := draws [0.91; 0.99; 0.007; 0; 0.5]%Q;
     tick_clock := "2024-05-01T04:30:30.000Z" |}.

(** A tick whose coin flip does not fire. *)
Definition quiet_env : TickEnv :=
  {| tick_random := draws [0.4]%Q; tick_clock := "2024-05-01T04:30:45.000Z" |}.

Definition first_alert : Alert :=
  {| alert_id := "A417"; timestamp := "2024-05-01T04:30:15.000Z";
     alert_location := {| lat := (6.82 + (0.25 - 0.5) * 0.01)%Q;
                          lng := (80.81 + (0.75 - 0.5) * 0.01)%Q |};
     severity := High; deviceId := "D102" |}.

Definition second_alert : Alert :=
  {| alert_id := "A7"; timestamp := "2024-05-01T04:30:30.000Z";
     alert_location := {| lat := (6.85 + (0 - 0.5) * 0.01)%Q;
                          lng := (80.85 + (0.5 - 0.5) * 0.01)%Q |};
     severity := High; deviceId := "D105" |}.

(** A firing tick with the identifier of [firing_env] and another device. *)
Definition colliding_env : TickEnv :=
  {| tick_random := draws [0.99; 0.85; 0.4175; 0.5; 0.5]%Q;
     tick_clock := "2024-05-01T04:31:00.000Z" |}.

Definition colliding_alert : Alert :=
  {| alert_id := "A417"; timestamp := "2024-05-01T04:31:00.000Z";
     alert_location := {| lat := (6.85 + (0.5 - 0.5) * 0.01)%Q;
                          lng := (80.85 + (0.5 - 0.5) * 0.01)%Q |};
     severity := High; deviceId := "D105" |}.

(** The seed device D105, which no seed alert names. *)
Definition sample_device : Device :=
  {| device_id := "D105"; status := Online; battery := 95;
     lastPing := sample_hoursAgo 0.3;
     device_location := {| lat := 6.85; lng := 80.85 |} |}.

Definition low_device : Device :=
  {| device_id := "D103"; status := LowBattery; battery := 15;
     lastPing := sample_hoursAgo 1;
     device_location := {| lat := 6.79; lng := 80.78 |} |}.

Definition sample_state : AppState := initialState sample_hoursAgo.

(** A state whose device set is empty. *)
Definition no_devices : AppState :=
  {| activePage := Dashboard; isSidebarOpen := false;
     alerts := mockAlerts sample_hoursAgo; devices := [];
     highSeverityAlert := Some first_alert; selectedDevice := None |}.




(** The refs of a mounted map whose layer group holds a stale circle. *)
Definition stale_refs : Refs :=
  {| mapContainerRef := Some 0%nat; mapRef := Some 0%nat;
     dataLayerRef := Some [ Circle (6.8, 80.8)%Q "red" "red" 0.3 200 "" ] |}.

(** * Properties *)

Lemma severity_eqb_eq a b : severity_eqb a b = true <-> a = b.
Proof. destruct a, b; simpl; split; congruence. Qed.

Lemma status_eqb_eq a b : status_eqb a b = true <-> a = b.
Proof. destruct a, b; simpl; split; congruence. Qed.

(** ** The callback on the sample inputs *)

Example tick_firing :
  tick firing_env sample_state =
  (Ok tt,
   {| activePage := Dashboard; isSidebarOpen := false;
      alerts := first_alert :: mockAlerts sample_hoursAgo;
      devices := mockDevices sample_hoursAgo;
      highSeverityAlert := Some first_alert; selectedDevice := None |}).
Proof. vm_compute. reflexivity. Qed.

Example tick_quiet : tick quiet_env sample_state = (Ok tt, sample_state).
Proof. vm_compute. reflexivity. Qed.

Example tick_no_devices : tick firing_env no_devices = (Throw TypeError, no_devices).
Proof. vm_compute. reflexivity. Qed.

Example sync_seed_data :
  length (syncLayers (mockDevices sample_hoursAgo) (mockAlerts sample_hoursAgo)) = 8%nat /\
  List.filter is_circle
    (syncLayers (mockDevices sample_hoursAgo) (mockAlerts sample_hoursAgo))
  = [ Circle (6.8, 80.8)%Q "red" "red" 0.3 200
             "<b>Alert:</b> A001<br><b>Severity:</b> High";
      Circle (6.82, 80.81)%Q "orange" "orange" 0.3 200
             "<b>Alert:</b> A002<br><b>Severity:</b> Medium";
      Circle (6.79, 80.78)%Q "orange" "orange" 0.3 200
             "<b>Alert:</b> A003<br><b>Severity:</b> Low" ].
Proof. split; reflexivity. Qed.

Example mount_update_unmount :
  calls (snd (lrun (Unmounted, Leaflet0)
                [ Mount 7%nat (DashboardPage_MapView [] []);
                  Update (DashboardPage_MapView [] []) true true;
                  Unmount ]))
  = [ RemoveMap 0%nat;
      SetView 0%nat (6.8, 80.8)%Q 11;
      SetView 0%nat (6.8, 80.8)%Q 11;
      InvalidateSizeIn 0%nat 100;
      AddLayerGroup 0%nat;
      AddTileLayer 0%nat;
      SetView 0%nat (6.8, 80.8)%Q 11;
      CreateMap 0%nat 7%nat ].
Proof. reflexivity. Qed.

Lemma sample_draws_in_range :
  (forall n, 0 <= tick_random firing_env n < 1)%Q /\
  (forall n, 0 <= tick_random second_env n < 1)%Q.
Proof.
  split; intros n; simpl; unfold draws;
    do 5 (destruct n as [|n]; [simpl; split; lra|]);
    destruct n; simpl; split; lra.
Qed.


(** ** The interval callback, in closed form *)

Lemma tick_eq env s :
  tick env s =
  match synthesize (devices s) env with
  | Some a => (Ok tt, setHighSeverityAlert (Some a) (setAlerts (fun prev => a :: prev) s))
  | None => (if Qgtb (tick_random env 0%nat) 0.9%Q then Throw TypeError else Ok tt, s)
  end.
Proof.
  unfold tick, synthesize, intervalCallback.
  cbv [mbind mret Eff_bind Eff_ret Math_random Date_toISOString update].
  cbn [random drawn clock app].
  destruct (Qgtb (tick_random env 0%nat) 0.9%Q); [|reflexivity].
  destruct (index (devices s) _) as [d|]; reflexivity.
Qed.

Lemma synthesize_randomDevice devs env a :
  synthesize devs env = Some a ->
  exists d, randomDevice devs env = Some d /\ deviceId a = device_id d.
Proof.
  unfold synthesize, randomDevice.
  destruct (Qgtb _ _); [|discriminate].
  destruct (index devs _) as [d|]; [|discriminate].
  intros [= <-]. eauto.
Qed.

Lemma synthesize_High devs env a : synthesize devs env = Some a -> severity a = High.
Proof.
  unfold synthesize.
  destruct (Qgtb _ _); [|discriminate].
  destruct (index devs _); [|discriminate].
  by intros [= <-].
Qed.

Lemma index_nil {A} (k : Z) : index (@nil A) k = None.
Proof. unfold index. by destruct (0 <=? k)%Z. Qed.

Lemma synthesize_nil env : synthesize [] env = None.
Proof. unfold synthesize. rewrite index_nil. by destruct (Qgtb _ _). Qed.

(** What each event does to the three cells the feed is about. *)
Ltac by_event e :=
  destruct e; try reflexivity;
  simpl; rewrite tick_eq; by destruct (synthesize _ _).

Lemma step_devices s e : devices (step s e) = devices s.
Proof. by_event e. Qed.

Lemma step_alerts s e :
  alerts (step s e) =
  match e with
  | Tick env =>
      match synthesize (devices s) env with
      | Some a => a :: alerts s
      | None => alerts s
      end
  | _ => alerts s
  end.
Proof. by_event e. Qed.

Lemma step_gate s e :
  highSeverityAlert (step s e) =
  match e with
  | Tick env =>
      match synthesize (devices s) env with
      | Some a => Some a
      | None => highSeverityAlert s
      end
  | Acknowledge => None
  | _ => highSeverityAlert s
  end.
Proof. by_event e. Qed.

Lemma run_devices s evs : devices (run s evs) = devices s.
Proof.
  revert s. induction evs as [|e evs IH]; intros s; [done|].
  simpl. unfold run in IH. by rewrite IH, step_devices.
Qed.

Lemma run_snoc s evs e : run s (evs ++ [e]) = step (run s evs) e.
Proof. unfold run. by rewrite foldl_app. Qed.

Lemma appended_app devs evs1 evs2 :
  appended devs (evs1 ++ evs2) = appended devs evs1 ++ appended devs evs2.
Proof.
  induction evs1 as [|e evs1 IH]; [done|].
  destruct e; simpl; try done.
  destruct (synthesize devs env); simpl; by rewrite IH.
Qed.

Lemma run_alerts s evs :
  alerts (run s evs) = rev (appended (devices s) evs) ++ alerts s.
Proof.
  revert s. induction evs as [|e evs IH]; intros s; [done|].
  change (run s (e :: evs)) with (run (step s e) evs).
  rewrite IH, step_devices, step_alerts.
  destruct e; simpl; try done.
  destruct (synthesize (devices s) env); simpl; [|done].
  by rewrite <- app_assoc.
Qed.

(** While nothing is appended the gate can only fall back to idle. *)
Lemma run_gate_quiet s evs :
  appended (devices s) evs = [] ->
  highSeverityAlert (run s evs) = highSeverityAlert s \/
  highSeverityAlert (run s evs) = None.
Proof.
  revert s. induction evs as [|e evs IH]; intros s Hq; [by left|].
  change (run s (e :: evs)) with (run (step s e) evs).
  assert (Hq' : appended (devices (step s e)) evs = [] /\
                (highSeverityAlert (step s e) = highSeverityAlert s \/
                 highSeverityAlert (step s e) = None)).
  { rewrite step_devices, step_gate. destruct e; simpl in Hq; auto.
    destruct (synthesize (devices s) env); [discriminate|auto]. }
  destruct Hq' as [Hq' Hg]. destruct (IH _ Hq') as [H|H].
  - rewrite H. exact Hg.
  - by right.
Qed.

(** Without an acknowledge and without an append the gate keeps its value. *)
Lemma run_gate_hold s evs :
  existsb is_acknowledge evs = false ->
  appended (devices s) evs = [] ->
  highSeverityAlert (run s evs) = highSeverityAlert s.
Proof.
  revert s. induction evs as [|e evs IH]; intros s Hack Hq; [done|].
  change (run s (e :: evs)) with (run (step s e) evs).
  simpl in Hack. apply orb_false_elim in Hack as [He Hack].
  rewrite IH; [| done |].
  - rewrite step_gate. destruct e; try done.
    simpl in Hq. by destruct (synthesize (devices s) env).
  - rewrite step_devices. destruct e; try done.
    simpl in Hq. by destruct (synthesize (devices s) env).
Qed.

(** ** Event synthesizer on an empty device set *)

(** On a tick with an empty device set the callback appends nothing: no
    alert is produced and the ledger and the gate (indeed the whole state)
    are as before, for one tick and for any number of ticks, whether the
    callback returns or throws. *)
Theorem tick_empty_device_set (s : AppState) :
  devices s = [] ->
  (forall env,
      synthesize (devices s) env = None /\
      snd (tick env s) = s /\
      alerts (step s (Tick env)) = alerts s /\
      highSeverityAlert (step s (Tick env)) = highSeverityAlert s /\
      fst (tick env s) =
        (if Qgtb (tick_random env 0%nat) 0.9%Q then Throw TypeError else Ok tt)) /\
  (forall envs : list TickEnv,
      appended (devices s) (Tick <$> envs) = [] /\
      run s (Tick <$> envs) = s).
Proof.
  intros Hd. split.
  - intros env. simpl. rewrite tick_eq, Hd, synthesize_nil. done.
  - intros envs. rewrite Hd. induction envs as [|env envs [IHa IHr]]; [done|].
    split.
    + simpl. by rewrite synthesize_nil.
    + change (run s (Tick <$> env :: envs))
        with (run (step s (Tick env)) (Tick <$> envs)).
      simpl. rewrite tick_eq, Hd, synthesize_nil. exact IHr.
Qed.

Lemma tick_empty_device_set_witness :
  devices no_devices = [] /\
  snd (tick firing_env no_devices) = no_devices /\
  run no_devices (Tick <$> [firing_env; quiet_env; second_env]) = no_devices.
Proof.
  split; [reflexivity|].
  destruct (tick_empty_device_set no_devices eq_refl) as [Hone Hmany].
  split.
  - apply (Hone firing_env).
  - apply (Hmany [firing_env; quiet_env; second_env]).
Defined.



(** ** Alert ledger *)

(** C2.  The ledger only grows at its front.  One event leaves it as it was
    or puts one alert before it; after any sequence of events it is the
    alerts appended along the way, newest first, followed by the ledger the
    sequence started from; and an alert appended after a sequence stands
    before everything that sequence left. *)
Theorem ledger_prepend_only (s : AppState) :
  (forall e,
      alerts (step s e) = alerts s \/ exists a, alerts (step s e) = a :: alerts s) /\
  (forall evs,
      alerts (run s evs) = rev (appended (devices s) evs) ++ alerts s) /\
  (forall evs env a,
      synthesize (devices s) env = Some a ->
      alerts (run s (evs ++ [Tick env])) = a :: alerts (run s evs)).
Proof.
  split; [|split].
  - intros e. rewrite step_alerts. destruct e; auto.
    destruct (synthesize (devices s) env); eauto.
  - apply run_alerts.
  - intros evs env a Ha.
    rewrite run_snoc, step_alerts, run_devices, Ha. done.
Qed.

Lemma ledger_prepend_only_witness :
  synthesize (devices sample_state) second_env = Some second_alert /\
  alerts (run sample_state ([Tick firing_env; Acknowledge] ++ [Tick second_env]))
  = second_alert :: alerts (run sample_state [Tick firing_env; Acknowledge]).
Proof.
  assert (H : synthesize (devices sample_state) second_env = Some second_alert)
    by (vm_compute; reflexivity).
  split; [exact H|].
  destruct (ledger_prepend_only sample_state) as (_ & _ & Hfront).
  apply (Hfront [Tick firing_env; Acknowledge] second_env second_alert H).
Defined.

(** ** Notification gate *)

(** C3.  In every reachable state the gate is idle or holds one alert of
    severity High.  No transition appends an alert of another severity: an
    event either leaves the ledger alone or prepends a High alert, which
    then is the gate's alert; and the ledger's own append (the [setAlerts]
    updater) does not write the gate, whatever the alert. *)
Theorem gate_none_or_High (hoursAgo : Q -> string) (s : AppState) :
  reachable hoursAgo s ->
  (highSeverityAlert s = None \/
   exists a, highSeverityAlert s = Some a /\ severity a = High) /\
  (forall e,
      (alerts (step s e) = alerts s /\
       (highSeverityAlert (step s e) = highSeverityAlert s \/
        highSeverityAlert (step s e) = None)) \/
      (exists a, alerts (step s e) = a :: alerts s /\ severity a = High /\
                 highSeverityAlert (step s e) = Some a)) /\
  (forall a, highSeverityAlert (setAlerts (fun prev => a :: prev) s)
             = highSeverityAlert s).
Proof.
  intros Hr. split; [|split].
  - induction Hr as [|s e Hr IH]; [by left|].
    rewrite step_gate. destruct e; auto.
    destruct (synthesize (devices s) env) as [a|] eqn:Ha; [|done].
    right. exists a. split; [done|]. by apply synthesize_High in Ha.
  - intros e. rewrite step_alerts, step_gate. destruct e; auto.
    destruct (synthesize (devices s) env) as [a|] eqn:Ha; [|auto].
    right. exists a. repeat split. by apply synthesize_High in Ha.
  - done.
Qed.

Lemma gate_none_or_High_witness :
  reachable sample_hoursAgo (step (step sample_state (Tick firing_env)) (Navigate Map)) /\
  (highSeverityAlert (step (step sample_state (Tick firing_env)) (Navigate Map)) = None \/
   exists a,
     highSeverityAlert (step (step sample_state (Tick firing_env)) (Navigate Map)) = Some a /\
     severity a = High).
Proof.
  assert (Hr : reachable sample_hoursAgo
                 (step (step sample_state (Tick firing_env)) (Navigate Map))).
  { apply reachable_step, reachable_step, reachable_init. }
  split; [exact Hr|].
  apply (gate_none_or_High sample_hoursAgo _ Hr).
Defined.

(** C4.  Two alerts appended one after the other, with no acknowledge (and
    no further append) in between: the first is the gate's alert until the
    second arrives, from then on the second is; both are in the ledger, the
    second in front.  The gate keeps no queue. *)
Theorem gate_last_write_wins (s : AppState) (env1 env2 : TickEnv)
    (mid : list Event) (a1 a2 : Alert) :
  synthesize (devices s) env1 = Some a1 ->
  synthesize (devices s) env2 = Some a2 ->
  existsb is_acknowledge mid = false ->
  appended (devices s) mid = [] ->
  highSeverityAlert (run s (Tick env1 :: mid)) = Some a1 /\
  highSeverityAlert (run s (Tick env1 :: mid ++ [Tick env2])) = Some a2 /\
  alerts (run s (Tick env1 :: mid ++ [Tick env2])) = a2 :: a1 :: alerts s.
Proof.
  intros H1 H2 Hack Hq.
  assert (Hg1 : highSeverityAlert (run s (Tick env1 :: mid)) = Some a1).
  { change (run s (Tick env1 :: mid)) with (run (step s (Tick env1)) mid).
    rewrite run_gate_hold; [| done | by rewrite step_devices].
    by rewrite step_gate, H1. }
  split; [done|].
  change (Tick env1 :: mid ++ [Tick env2]) with ((Tick env1 :: mid) ++ [Tick env2]).
  rewrite run_snoc, step_gate, step_alerts, run_devices, H2.
  split; [done|].
  rewrite run_alerts. simpl. by rewrite H1, Hq.
Qed.

Lemma gate_last_write_wins_witness :
  synthesize (devices sample_state) firing_env = Some first_alert /\
  synthesize (devices sample_state) second_env = Some second_alert /\
  existsb is_acknowledge [Navigate Map; Tick quiet_env; OpenSidebar] = false /\
  appended (devices sample_state) [Navigate Map; Tick quiet_env; OpenSidebar] = [] /\
  highSeverityAlert
    (run sample_state
       (Tick firing_env :: [Navigate Map; Tick quiet_env; OpenSidebar] ++ [Tick second_env]))
  = Some second_alert.
Proof.
  assert (H1 : synthesize (devices sample_state) firing_env = Some first_alert)
    by (vm_compute; reflexivity).
  assert (H2 : synthesize (devices sample_state) second_env = Some second_alert)
    by (vm_compute; reflexivity).
  assert (H3 : existsb is_acknowledge [Navigate Map; Tick quiet_env; OpenSidebar] = false)
    by reflexivity.
  assert (H4 : appended (devices sample_state) [Navigate Map; Tick quiet_env; OpenSidebar] = [])
    by (vm_compute; reflexivity).
  repeat (split; [assumption|]).
  apply (gate_last_write_wins sample_state firing_env second_env _ _ _ H1 H2 H3 H4).
Defined.

(** C5.  An acknowledge empties the gate; the gate then stays empty as long
    as no alert is appended, and the next appended alert (always of severity
    High) fills it again.  From a state in which the gate holds an alert, a
    single event that empties it is the acknowledge. *)
Theorem acknowledge_clears_gate (s : AppState) :
  highSeverityAlert (step s Acknowledge) = None /\
  (forall evs,
      appended (devices s) evs = [] ->
      highSeverityAlert (run (step s Acknowledge) evs) = None) /\
  (forall evs env a,
      synthesize (devices s) env = Some a ->
      highSeverityAlert (run (step s Acknowledge) (evs ++ [Tick env])) = Some a /\
      severity a = High) /\
  (forall e a,
      highSeverityAlert s = Some a ->
      highSeverityAlert (step s e) = None ->
      e = Acknowledge).
Proof.
  split; [done|]. split; [|split].
  - intros evs Hq.
    destruct (run_gate_quiet (step s Acknowledge) evs) as [H|H]; [done| |done].
    by rewrite H.
  - intros evs env a Ha. split; [|by apply synthesize_High in Ha].
    by rewrite run_snoc, step_gate, run_devices, step_devices, Ha.
  - intros e a Hs. rewrite step_gate. destruct e; try congruence.
    destruct (synthesize (devices s) env); congruence.
Qed.

Lemma acknowledge_clears_gate_witness :
  highSeverityAlert (step sample_state (Tick firing_env)) = Some first_alert /\
  appended (devices (step sample_state (Tick firing_env)))
    [Navigate Alerts; Tick quiet_env] = [] /\
  highSeverityAlert
    (run (step (step sample_state (Tick firing_env)) Acknowledge)
       [Navigate Alerts; Tick quiet_env]) = None.
Proof.
  split; [vm_compute; reflexivity|].
  assert (Hq : appended (devices (step sample_state (Tick firing_env)))
                 [Navigate Alerts; Tick quiet_env] = []) by (vm_compute; reflexivity).
  split; [exact Hq|].
  destruct (acknowledge_clears_gate (step sample_state (Tick firing_env)))
    as (_ & Hstay & _).
  apply (Hstay [Navigate Alerts; Tick quiet_env] Hq).
Defined.

(** ** The by-device query *)

Lemma byDevice_cons id a l :
  byDevice id (a :: l) =
  if decide (deviceId a = id) then a :: byDevice id l else byDevice id l.
Proof.
  unfold byDevice. simpl.
  destruct (decide (deviceId a = id)) as [->|Hne].
  - by rewrite String.eqb_refl.
  - apply String.eqb_neq in Hne. by rewrite Hne.
Qed.

Lemma byDevice_sublist id l : byDevice id l `sublist_of` l.
Proof.
  induction l as [|a l IH]; [constructor|].
  rewrite byDevice_cons. destruct (decide _); by constructor.
Qed.

Lemma byDevice_elem id l a :
  a ∈ byDevice id l <-> a ∈ l /\ deviceId a = id.
Proof.
  induction l as [|b l IH].
  - split; [inversion 1|intros [H _]; inversion H].
  - rewrite byDevice_cons. destruct (decide (deviceId b = id)) as [Hb|Hb].
    + rewrite !elem_of_cons, IH. split.
      * intros [->|[? ?]]; auto.
      * intros [[->|?] ?]; auto.
    + rewrite elem_of_cons, IH. split.
      * intros [? ?]; auto.
      * intros [[->|?] ?]; [done|auto].
Qed.

Lemma byDevice_greatest id l k :
  k `sublist_of` l -> Forall (fun a => deviceId a = id) k ->
  k `sublist_of` byDevice id l.
Proof.
  intros Hsub. induction Hsub as [|a k l Hsub IH|a k l Hsub IH]; intros Hall.
  - constructor.
  - inversion Hall as [|? ? Ha Hk]; subst.
    rewrite byDevice_cons. destruct (decide _); [|done].
    constructor. by apply IH.
  - rewrite byDevice_cons. destruct (decide _); [|by apply IH].
    constructor. by apply IH.
Qed.

(** C6.  The by-device query of the detail modal is the subsequence of the
    ledger with the given device id: it coincides with the front-to-back
    selection the specification words describe, it is a subsequence of the
    ledger (so ledger order is preserved), its elements are exactly the
    ledger's alerts of that device, and every subsequence of the ledger made
    of that device's alerts only is a subsequence of it.  The modal of a
    selected device is handed this list for the device's id. *)
Theorem byDevice_exact (id : string) (l : list Alert) :
  byDevice id l = byDevice_spec id l /\
  byDevice id l `sublist_of` l /\
  (forall a, a ∈ byDevice id l <-> a ∈ l /\ deviceId a = id) /\
  (forall k, k `sublist_of` l -> Forall (fun a => deviceId a = id) k ->
             k `sublist_of` byDevice id l) /\
  (forall s d, selectedDevice s = Some d -> alerts s = l -> device_id d = id ->
               DeviceDetailModal_alerts s = Some (byDevice id l)).
Proof.
  split; [|split; [|split; [|split]]].
  - induction l as [|a l IH]; [done|].
    rewrite byDevice_cons. simpl. by rewrite IH.
  - apply byDevice_sublist.
  - intros a. apply byDevice_elem.
  - apply byDevice_greatest.
  - intros s d Hs Ha Hd. unfold DeviceDetailModal_alerts. by rewrite Hs, Ha, Hd.
Qed.

Lemma byDevice_exact_witness :
  byDevice "D101" (mockAlerts sample_hoursAgo)
  = [ {| alert_id := "A001"; timestamp := sample_hoursAgo 1;
         alert_location := {| lat := 6.8; lng := 80.8 |};
         severity := High; deviceId := "D101" |};
      {| alert_id := "A004"; timestamp := sample_hoursAgo 8;
         alert_location := {| lat := 6.81; lng := 80.83 |};
         severity := Resolved; deviceId := "D101" |} ] /\
  byDevice "D101" (mockAlerts sample_hoursAgo)
  = byDevice_spec "D101" (mockAlerts sample_hoursAgo) /\
  byDevice "D101" (mockAlerts sample_hoursAgo) `sublist_of` mockAlerts sample_hoursAgo.
Proof.
  split; [reflexivity|].
  destruct (byDevice_exact "D101" (mockAlerts sample_hoursAgo)) as (Heq & Hsub & _).
  split; [exact Heq | exact Hsub].
Defined.

(** ** The synthesized alert *)

Lemma Qgtb_true x y : Qgtb x y = true <-> (y < x)%Q.
Proof.
  unfold Qgtb. rewrite negb_true_iff, <- not_true_iff_false, Qle_bool_iff.
  split; [apply Qnot_le_lt | apply Qlt_not_le].
Qed.

(** [Math.floor(r * n)] of a draw [r] in [0,1) is an index below [n]. *)
Lemma floor_scaled_draw (r : Q) (n : nat) :
  (0 <= r < 1)%Q -> (0 < n)%nat ->
  (0 <= Math_floor (r * inject_Z (Z.of_nat n)) < Z.of_nat n)%Z.
Proof.
  intros [Hr0 Hr1] Hn. unfold Math_floor.
  assert (Hn' : (0 < inject_Z (Z.of_nat n))%Q).
  { rewrite <- (Zlt_Qlt 0). lia. }
  split.
  - change 0%Z with (Qfloor 0). apply Qfloor_resp_le.
    apply Qmult_le_0_compat; [done|]. by apply Qlt_le_weak.
  - rewrite Zlt_Qlt.
    apply Qle_lt_trans with (r * inject_Z (Z.of_nat n))%Q; [apply Qfloor_le|].
    rewrite <- (Qmult_1_l (inject_Z (Z.of_nat n))) at 2.
    by apply Qmult_lt_compat_r.
Qed.

Lemma randomDevice_total devs env :
  devs <> [] -> (0 <= tick_random env 1%nat < 1)%Q ->
  exists d, randomDevice devs env = Some d /\ d ∈ devs.
Proof.
  intros Hne Hr. unfold randomDevice, index, array_length.
  assert (Hn : (0 < length devs)%nat) by (destruct devs; [done|simpl; lia]).
  destruct (floor_scaled_draw _ _ Hr Hn) as [H0 Hlt].
  apply Z.leb_le in H0. rewrite H0.
  destruct (lookup_lt_is_Some_2 devs (Z.to_nat (Math_floor
             (tick_random env 1%nat * inject_Z (Z.of_nat (length devs))))))
    as [d Hd]; [apply Z.leb_le in H0; lia|].
  exists d. split; [done|]. by eapply list_elem_of_lookup_2.
Qed.

(** In exact arithmetic the noise term [(r - 0.5) * 0.01] stays within the
    radius. *)
Lemma perturbation_bound (c r : Q) :
  (0 <= r < 1)%Q -> (Qabs (c + (r - 0.5) * 0.01 - c) <= 0.005)%Q.
Proof. intros [H0 H1]. apply Qabs_Qle_condition. split; lra. Qed.
(** ** The synthesized alert in binary64 arithmetic *)




















(** [round64] against the binary64 arithmetic of the machine: the literals
    0.01 and 0.9, the latitude of [synthesized_alert_beyond_radius], and the
    index product 0.6 * 5, whose integer part is 3 after rounding. *)
Example round64_is_machine_rounding :
  Q_of_float 0x1.47ae147ae147bp-7%float = Some (round64 0.01) /\
  Q_of_float 0x1.ccccccccccccdp-1%float = Some (round64 0.9) /\
  (exists v, Q_of_float (10 + (0 - 0x1p-1) * 0x1.47ae147ae147bp-7)%float = Some v /\
             (v == js_add 10 (js_mul (js_sub 0 0.5) (round64 0.01)))%Q) /\
  (exists v, Q_of_float (0x1.3333333333333p-1 * 5)%float = Some v /\
             (v == js_mul (round64 0.6) 5)%Q /\ Qfloor v = 3%Z).
Proof.
  split; [vm_compute; reflexivity|]. split; [vm_compute; reflexivity|].
  split; eexists; (split; [vm_compute; reflexivity|]).
  - vm_compute. reflexivity.
  - split; vm_compute; reflexivity.
Qed.

(** ** Overlay synchronisation *)

Lemma addDeviceMarker_spec acc d : addDeviceMarker acc d = acc ++ [marker_spec d].
Proof.
  unfold addDeviceMarker, marker_spec, statusColorClass_of.
  by destruct (status d).
Qed.

Lemma addAlertCircle_spec acc a :
  addAlertCircle acc a = if not_resolved a then acc ++ [circle_spec a] else acc.
Proof.
  unfold addAlertCircle, circle_spec, not_resolved.
  by destruct (severity a).
Qed.

Lemma foldl_addDeviceMarker acc devs :
  foldl addDeviceMarker acc devs = acc ++ (marker_spec <$> devs).
Proof.
  revert acc. induction devs as [|d devs IH]; intros acc; simpl.
  - by rewrite app_nil_r.
  - by rewrite IH, addDeviceMarker_spec, <- app_assoc.
Qed.

Lemma foldl_addAlertCircle acc als :
  foldl addAlertCircle acc als = acc ++ (circle_spec <$> List.filter not_resolved als).
Proof.
  revert acc. induction als as [|a als IH]; intros acc; simpl.
  - by rewrite app_nil_r.
  - rewrite IH, addAlertCircle_spec. destruct (not_resolved a); [|done].
    by rewrite <- app_assoc.
Qed.

Lemma syncLayers_spec devs als : syncLayers devs als = overlay_spec devs als.
Proof.
  unfold syncLayers, overlay_spec.
  by rewrite foldl_addAlertCircle, foldl_addDeviceMarker.
Qed.

Lemma lstep_mount lf c p :
  lstep (Unmounted, lf) (Mount c p) =
  (Mounted {| mapContainerRef := Some c; mapRef := Some (next_map lf);
              dataLayerRef := Some (syncLayers (mp_devices p) (mp_alerts p)) |},
   {| calls := SetView (next_map lf) (mp_center p) (mp_zoom p)
               :: InvalidateSizeIn (next_map lf) 100
               :: AddLayerGroup (next_map lf)
               :: AddTileLayer (next_map lf)
               :: SetView (next_map lf) (mp_center p) (mp_zoom p)
               :: CreateMap (next_map lf) c :: calls lf;
      next_map := S (next_map lf) |}).
Proof. reflexivity. Qed.

Lemma filter_is_circle_markers devs :
  List.filter is_circle (marker_spec <$> devs) = [].
Proof. induction devs as [|d devs IH]; [done|]. exact IH. Qed.

Lemma filter_is_circle_circles als :
  List.filter is_circle (circle_spec <$> als) = circle_spec <$> als.
Proof. induction als as [|a als IH]; [done|]. simpl. f_equal. exact IH. Qed.

(** C8.  The overlay effect replaces the layer group's content, whatever
    it was, by one marker per device, in device order, with the colour
    class of the status (Online green, Low Battery yellow, Offline red),
    followed by one circle of radius 200 per alert that is not Resolved, in
    alert order, red for High and orange otherwise; a Resolved alert adds
    nothing.  The same content is in place right after a mount.  Device
    D101, Online, at (6.80, 80.80) with alert A001, High, at (6.80, 80.80)
    gives one green marker and one red circle there. *)
Theorem overlay_sync_exact (p : MapProps) :
  (forall r lf old,
      dataLayerRef r = Some old ->
      dataLayerRef (fst (overlayEffect p (r, lf)))
      = Some (overlay_spec (mp_devices p) (mp_alerts p))) /\
  (forall c lf,
      exists r, fst (lstep (Unmounted, lf) (Mount c p)) = Mounted r /\
                dataLayerRef r = Some (overlay_spec (mp_devices p) (mp_alerts p))) /\
  length (List.filter (fun l => negb (is_circle l))
            (syncLayers (mp_devices p) (mp_alerts p))) = length (mp_devices p) /\
  length (List.filter is_circle (syncLayers (mp_devices p) (mp_alerts p)))
  = length (List.filter not_resolved (mp_alerts p)) /\
  (forall b ping ts,
      syncLayers
        [ {| device_id := "D101"; status := Online; battery := b; lastPing := ping;
             device_location := {| lat := 6.8; lng := 80.8 |} |} ]
        [ {| alert_id := "A001"; timestamp := ts;
             alert_location := {| lat := 6.8; lng := 80.8 |};
             severity := High; deviceId := "D101" |} ]
      = [ Marker (6.8, 80.8)%Q "bg-green-500"
                 ("<b>Device:</b> D101<br><b>Battery:</b> " +:+ Number_toString b +:+ "%");
          Circle (6.8, 80.8)%Q "red" "red" 0.3 200
                 "<b>Alert:</b> A001<br><b>Severity:</b> High" ]).
Proof.
  split; [|split; [|split; [|split]]].
  - intros r lf old Hold. simpl. by rewrite Hold, syncLayers_spec.
  - intros c lf. rewrite lstep_mount. eexists. split; [done|].
    simpl. by rewrite syncLayers_spec.
  - rewrite syncLayers_spec. unfold overlay_spec.
    rewrite List.filter_app, length_app.
    assert (H1 : forall l, List.filter (fun l => negb (is_circle l)) (marker_spec <$> l)
                           = marker_spec <$> l).
    { intros l. induction l as [|d l IH]; [done|]. simpl. f_equal. exact IH. }
    assert (H2 : forall l, List.filter (fun l => negb (is_circle l)) (circle_spec <$> l)
                           = []).
    { intros l. induction l as [|a l IH]; [done|]. exact IH. }
    rewrite H1, H2, length_fmap. simpl. lia.
  - rewrite syncLayers_spec. unfold overlay_spec.
    rewrite List.filter_app, length_app, filter_is_circle_markers,
      filter_is_circle_circles, length_fmap. done.
  - intros b ping ts. reflexivity.
Qed.

Lemma overlay_sync_exact_witness :
  dataLayerRef stale_refs = Some [ Circle (6.8, 80.8)%Q "red" "red" 0.3 200 "" ] /\
  dataLayerRef
    (fst (overlayEffect
            (MapPage_MapView (mockAlerts sample_hoursAgo) (mockDevices sample_hoursAgo))
            (stale_refs, Leaflet0)))
  = Some (overlay_spec (mockDevices sample_hoursAgo) (mockAlerts sample_hoursAgo)).
Proof.
  split; [reflexivity|].
  destruct (overlay_sync_exact
              (MapPage_MapView (mockAlerts sample_hoursAgo) (mockDevices sample_hoursAgo)))
    as (Hsync & _).
  apply (Hsync stale_refs Leaflet0 _ eq_refl).
Defined.

(** C10.  The dashboard's mini map is rendered with an empty alert list
    whatever the ledger holds: its props carry no alert, so its layer group
    is the device markers and nothing else, after the mount and after every
    later sync; it never holds a circle. *)
Theorem dashboard_map_markers_only (als : list Alert) (devs : list Device) :
  mp_alerts (DashboardPage_MapView als devs) = [] /\
  (forall s, activePage s = Dashboard -> alerts s = als -> devices s = devs ->
             renderPage_MapView s = Some (DashboardPage_MapView als devs)) /\
  (forall c lf,
      exists r, fst (lstep (Unmounted, lf) (Mount c (DashboardPage_MapView als devs)))
                = Mounted r /\
                dataLayerRef r = Some (marker_spec <$> devs)) /\
  (forall r lf old,
      dataLayerRef r = Some old ->
      dataLayerRef (fst (overlayEffect (DashboardPage_MapView als devs) (r, lf)))
      = Some (marker_spec <$> devs)) /\
  List.filter is_circle
    (syncLayers (mp_devices (DashboardPage_MapView als devs))
                (mp_alerts (DashboardPage_MapView als devs))) = [].
Proof.
  assert (Hsync : syncLayers devs [] = marker_spec <$> devs).
  { rewrite syncLayers_spec. unfold overlay_spec. simpl. by rewrite app_nil_r. }
  split; [done|]. split; [|split; [|split]].
  - intros s Hp Ha Hd. unfold renderPage_MapView. by rewrite Hp, Ha, Hd.
  - intros c lf. rewrite lstep_mount. eexists. split; [done|].
    simpl. by rewrite Hsync.
  - intros r lf old Hold. simpl. by rewrite Hold, Hsync.
  - simpl. rewrite Hsync. apply filter_is_circle_markers.
Qed.

Lemma dashboard_map_markers_only_witness :
  activePage sample_state = Dashboard /\
  renderPage_MapView sample_state
  = Some (DashboardPage_MapView (mockAlerts sample_hoursAgo) (mockDevices sample_hoursAgo)) /\
  dataLayerRef
    (fst (overlayEffect
            (DashboardPage_MapView (mockAlerts sample_hoursAgo) (mockDevices sample_hoursAgo))
            (stale_refs, Leaflet0)))
  = Some (marker_spec <$> mockDevices sample_hoursAgo).
Proof.
  split; [reflexivity|].
  destruct (dashboard_map_markers_only (mockAlerts sample_hoursAgo)
              (mockDevices sample_hoursAgo)) as (_ & Hpage & _ & Hsync & _).
  split.
  - apply (Hpage sample_state); reflexivity.
  - apply (Hsync stale_refs Leaflet0 _ eq_refl).
Defined.

(** ** Life cycle of the map resource *)

Lemma lstep_update r lf p cam ov :
  exists r' lf',
    lstep (Mounted r, lf) (Update p cam ov) = (Mounted r', lf') /\
    mapRef r' = mapRef r /\
    (is_Some (dataLayerRef r) -> is_Some (dataLayerRef r')) /\
    next_map lf' = next_map lf /\
    (calls lf' = calls lf \/
     exists m, calls lf' = SetView m (mp_center p) (mp_zoom p) :: calls lf).
Proof.
  unfold lstep. simpl.
  destruct cam, ov, (mapRef r) as [m|] eqn:Hm, (dataLayerRef r) as [old|] eqn:Hl;
    simpl; rewrite ?Hm, ?Hl; do 2 eexists; (split; [reflexivity|]); simpl;
    repeat split; eauto; by intros [? ?].
Qed.

Lemma lstep_unmount r lf :
  lstep (Mounted r, lf) Unmount =
  (Unmounted,
   match mapRef r with
   | Some m => log (RemoveMap m) lf
   | None => lf
   end).
Proof. unfold lstep. simpl. by destruct (mapRef r). Qed.

(** An effect body that finds the map already in place creates nothing. *)
Lemma initEffect_guard p r lf m :
  mapRef r = Some m -> initEffect p (r, lf) = (r, lf).
Proof. intros H. simpl. rewrite H. by destruct (mapContainerRef r). Qed.

Lemma lifecycle_inv_step st e : lifecycle_inv st -> lifecycle_inv (lstep st e).
Proof.
  destruct st as [sf lf]. intros [Hsf Hcnt].
  destruct sf as [|r], e as [c p|p cam ov|]; try (by split).
  - (* mount *)
    rewrite lstep_mount. split.
    + split; [|by eexists]. exists (next_map lf). split; [done|]. simpl. lia.
    + intros m. destruct (Hcnt m) as [Hc Hd]. unfold creations_of, disposals_of in *.
      simpl in *. unfold MapId in *.
      destruct (decide (m = next_map lf)) as [->|Hne].
      * rewrite Nat.eqb_refl, Nat.ltb_irrefl in *.
        assert ((next_map lf <? S (next_map lf))%nat = true) as -> by (apply Nat.ltb_lt; lia).
        rewrite decide_True by done. simpl. split; [lia|].
        destruct (decide (None = Some (next_map lf))); [done|lia].
      * assert ((m =? next_map lf)%nat = false) as -> by (by apply Nat.eqb_neq).
        rewrite decide_False by congruence.
        destruct (decide (None = Some m)); [done|].
        assert ((m <? S (next_map lf))%nat = (m <? next_map lf)%nat) as ->.
        { destruct (m <? next_map lf)%nat eqn:E.
          - apply Nat.ltb_lt in E. apply Nat.ltb_lt. lia.
          - apply Nat.ltb_ge in E. apply Nat.ltb_ge. lia. }
        split; [done|]. by rewrite Hd.
  - (* update *)
    destruct (lstep_update r lf p cam ov) as (r' & lf' & -> & Hm & Hl & Hn & Hc).
    destruct Hsf as [Hm0 Hsl]. split.
    + split; [|by apply Hl]. by rewrite Hm, Hn.
    + intros m. destruct (Hcnt m) as [Hcr Hdi].
      unfold creations_of, disposals_of in *. simpl in *.
      rewrite Hm, Hn. destruct Hc as [->|[m' ->]]; simpl; done.
  - (* unmount *)
    rewrite lstep_unmount. destruct Hsf as [(m0 & Hm0 & Hlt) _].
    rewrite Hm0. split; [done|].
    intros m. destruct (Hcnt m) as [Hc Hd].
    unfold creations_of, disposals_of in *. simpl in *. rewrite Hm0 in Hd.
    split; [done|].
    destruct (decide (None = Some m)); [done|].
    destruct (decide (m = m0)) as [->|Hne].
    + rewrite Nat.eqb_refl, decide_True in * by done. simpl. rewrite Hd, Hc.
      by apply Nat.ltb_lt in Hlt as ->.
    + assert ((m =? m0)%nat = false) as -> by (by apply Nat.eqb_neq).
      by rewrite decide_False in Hd by congruence.
Qed.

Lemma lifecycle_inv_run evs st : lifecycle_inv st -> lifecycle_inv (lrun st evs).
Proof.
  revert st. induction evs as [|e evs IH]; intros st Hst; [done|].
  apply IH. by apply lifecycle_inv_step.
Qed.

Lemma lifecycle_inv_init : lifecycle_inv (Unmounted, Leaflet0).
Proof. split; [done|]. intros m. split; [done|]. by destruct (decide _). Qed.

Lemma lrun_counts evs st :
  lifecycle_inv st ->
  creations (snd (lrun st evs)) = (creations (snd st) + mounts (is_mounted (fst st)) evs)%nat /\
  disposals (snd (lrun st evs)) = (disposals (snd st) + unmounts (is_mounted (fst st)) evs)%nat /\
  (mounts (is_mounted (fst st)) evs + (if is_mounted (fst st) then 1 else 0)
   = unmounts (is_mounted (fst st)) evs
     + (if is_mounted (fst (lrun st evs)) then 1 else 0))%nat.
Proof.
  revert st. induction evs as [|e evs IH]; intros st Hst.
  - simpl. by rewrite !Nat.add_0_r.
  - change (lrun st (e :: evs)) with (lrun (lstep st e) evs).
    destruct (IH _ (lifecycle_inv_step _ e Hst)) as (Hc & Hd & Hm).
    rewrite Hc, Hd. clear IH Hc Hd.
    revert Hm. generalize (is_mounted (fst (lrun (lstep st e) evs))). intros b Hm.
    destruct st as [[|r] lf], e as [c p|p cam ov|]; simpl mounts; simpl unmounts.
    + rewrite lstep_mount in *. unfold creations, disposals. simpl in *.
      repeat split; lia.
    + simpl in *. repeat split; lia.
    + simpl in *. repeat split; lia.
    + simpl in *. repeat split; lia.
    + destruct (lstep_update r lf p cam ov) as (r' & lf' & Hst' & _ & _ & _ & Hcalls).
      rewrite Hst' in *. unfold creations, disposals. simpl in *.
      destruct Hcalls as [->|[m ->]]; simpl; repeat split; lia.
    + rewrite lstep_unmount in *. destruct Hst as [[(m0 & Hm0 & _) _] _].
      rewrite Hm0. unfold creations, disposals. simpl in *.
      repeat split; lia.
Qed.

Lemma mounts_cycles n c p ups :
  mounts false (cycles n c p ups) = n /\ unmounts false (cycles n c p ups) = n.
Proof.
  assert (Hu : forall evs, mounts true ((rerender <$> ups) ++ Unmount :: evs)
                           = mounts false evs /\
                           unmounts true ((rerender <$> ups) ++ Unmount :: evs)
                           = S (unmounts false evs)).
  { intros evs. induction ups as [|[[u cam] ov] ups IH]; [done|]. exact IH. }
  induction n as [|n [IHm IHu]]; [done|].
  simpl. destruct (Hu (cycles n c p ups)) as [-> ->]. by rewrite IHm, IHu.
Qed.

(** C9.  One map surface, from its first mount on, under any sequence of
    mounts, re-renders and unmounts: the number of maps created is the
    number of mounts and the number of maps removed is the number of
    unmounts; a handle is created at most once, removed only if created and
    at most once, and once the surface is unmounted every created handle
    has been removed exactly once; at any time the maps created exceed the
    maps removed by one while the surface is mounted and by none while it is
    not.  A re-render creates and removes nothing, and the effect body run
    again on an instance that holds a map creates nothing.  So [n] complete
    cycles give [n] creations and [n] removals. *)
Theorem map_resource_paired_with_mount (evs : list LifeEvent) :
  let st := lrun (Unmounted, Leaflet0) evs in
  creations (snd st) = mounts false evs /\
  disposals (snd st) = unmounts false evs /\
  creations (snd st) = (disposals (snd st) + (if is_mounted (fst st) then 1 else 0))%nat /\
  (forall m, (creations_of m (snd st) <= 1)%nat /\
             (disposals_of m (snd st) <= creations_of m (snd st))%nat /\
             (is_mounted (fst st) = false ->
              disposals_of m (snd st) = creations_of m (snd st))) /\
  (forall p cam ov,
      creations (snd (lstep st (Update p cam ov))) = creations (snd st) /\
      disposals (snd (lstep st (Update p cam ov))) = disposals (snd st)) /\
  (forall p r lf m, mapRef r = Some m -> initEffect p (r, lf) = (r, lf)) /\
  (forall n c p ups,
      let st' := lrun (Unmounted, Leaflet0) (cycles n c p ups) in
      fst st' = Unmounted /\ creations (snd st') = n /\ disposals (snd st') = n).
Proof.
  intros st.
  assert (Hinv : lifecycle_inv st) by apply lifecycle_inv_run, lifecycle_inv_init.
  destruct (lrun_counts evs _ lifecycle_inv_init) as (Hc & Hd & Hm).
  fold st in Hc, Hd, Hm. simpl in Hc, Hd, Hm.
  split; [done|]. split; [done|]. split; [|split; [|split; [|split]]].
  - rewrite Hc, Hd. destruct (is_mounted (fst st)); lia.
  - intros m. destruct st as [sf lf]. destruct Hinv as [_ Hcnt].
    destruct (Hcnt m) as [Hcr Hdi]. simpl. rewrite Hdi, Hcr.
    repeat split.
    + destruct (m <? next_map lf)%nat; lia.
    + destruct (decide _); lia.
    + intros Hsf. destruct sf; [|done]. simpl. by destruct (decide _).
  - intros p cam ov. destruct st as [[|r] lf]; [done|].
    destruct (lstep_update r lf p cam ov) as (r' & lf' & -> & _ & _ & _ & Hcalls).
    unfold creations, disposals. simpl. destruct Hcalls as [->|[m ->]]; done.
  - apply initEffect_guard.
  - intros n c p ups st'.
    destruct (lrun_counts (cycles n c p ups) _ lifecycle_inv_init) as (Hc' & Hd' & Hm').
    fold st' in Hc', Hd', Hm'. simpl in Hc', Hd', Hm'.
    destruct (mounts_cycles n c p ups) as [Hmn Hun].
    rewrite Hmn, Hun in *. repeat split; [|done|done].
    destruct (fst st'); [done|]. simpl in Hm'. lia.
Qed.

Lemma map_resource_paired_with_mount_witness :
  mapRef stale_refs = Some 0%nat /\
  initEffect (MapPage_MapView [] []) (stale_refs, Leaflet0) = (stale_refs, Leaflet0) /\
  creations (snd (lrun (Unmounted, Leaflet0)
                    (cycles 3 7%nat (MapPage_MapView [] [])
                       [(MapPage_MapView [] [], true, false)]))) = 3%nat /\
  disposals (snd (lrun (Unmounted, Leaflet0)
                    (cycles 3 7%nat (MapPage_MapView [] [])
                       [(MapPage_MapView [] [], true, false)]))) = 3%nat.
Proof.
  split; [reflexivity|].
  destruct (map_resource_paired_with_mount []) as (_ & _ & _ & _ & _ & Hguard & Hcycles).
  split; [apply (Hguard _ stale_refs Leaflet0 0%nat eq_refl)|].
  destruct (Hcycles 3%nat 7%nat (MapPage_MapView [] [])
              [(MapPage_MapView [] [], true, false)]) as (_ & Hc & Hd).
  split; [exact Hc | exact Hd].
Defined.


(** * Further properties of the alert feed *)

Lemma index_elem {A} (arr : list A) (k : Z) (x : A) : index arr k = Some x -> x ∈ arr.
Proof.
  unfold index. destruct (0 <=? k)%Z; [|discriminate].
  apply list_elem_of_lookup_2.
Qed.

Lemma synthesize_some devs env a :
  synthesize devs env = Some a ->
  Qgtb (tick_random env 0%nat) 0.9%Q = true /\
  exists d, randomDevice devs env = Some d /\ d ∈ devs /\
    a = {| alert_id := "A" +:+ Number_toString (Math_floor (tick_random env 2%nat * 1000)%Q);
           timestamp := tick_clock env;
           alert_location :=
             {| lat := (lat (device_location d) + (tick_random env 3%nat - 0.5) * 0.01)%Q;
                lng := (lng (device_location d) + (tick_random env 4%nat - 0.5) * 0.01)%Q |};
           severity := High; deviceId := device_id d |}.
Proof.
  unfold synthesize, randomDevice.
  destruct (Qgtb _ _); [|discriminate].
  destruct (index devs _) as [d|] eqn:Hd; [|discriminate].
  intros [= <-]. split; [done|]. exists d. split; [done|].
  split; [by eapply index_elem|done].
Qed.

Lemma synthesize_none devs env :
  synthesize devs env = None <->
  Qgtb (tick_random env 0%nat) 0.9%Q = false \/ randomDevice devs env = None.
Proof.
  unfold synthesize, randomDevice.
  destruct (Qgtb _ _); [|by intuition].
  destruct (index devs _); split; intros H; try done; [by destruct H|by right].
Qed.

Lemma reachable_devices h s : reachable h s -> devices s = mockDevices h.
Proof. induction 1 as [|s e _ IH]; [done|]. by rewrite step_devices. Qed.

Lemma reachable_ledger_suffix h s :
  reachable h s -> exists newer, alerts s = newer ++ mockAlerts h.
Proof.
  induction 1 as [|s e _ [newer IH]]; [by exists []|].
  rewrite step_alerts.
  destruct e; try (by exists newer).
  destruct (synthesize (devices s) env) as [a|]; [|by exists newer].
  exists (a :: newer). by rewrite IH.
Qed.

(** X1.  One firing of the timer is all or nothing.  It throws exactly
    when the coin flip fires and the picked index is outside the device
    array, and then the state is untouched; otherwise it returns normally,
    and either nothing changed or one alert was put in front of the ledger
    and made the gate's alert, every other cell being as before. *)
Theorem tick_all_or_nothing (env : TickEnv) (s : AppState) :
  (fst (tick env s) = Throw TypeError <->
   Qgtb (tick_random env 0%nat) 0.9%Q = true /\ randomDevice (devices s) env = None) /\
  (fst (tick env s) = Throw TypeError -> snd (tick env s) = s) /\
  (snd (tick env s) = s \/
   exists a,
     fst (tick env s) = Ok tt /\
     snd (tick env s) =
       {| activePage := activePage s; isSidebarOpen := isSidebarOpen s;
          alerts := a :: alerts s; devices := devices s;
          highSeverityAlert := Some a; selectedDevice := selectedDevice s |}).
Proof.
  rewrite tick_eq.
  destruct (synthesize (devices s) env) as [a|] eqn:Hs.
  - apply synthesize_some in Hs as (Hfire & d & Hd & _ & _).
    split; [|split].
    + simpl. split; [discriminate|]. intros [_ Hn]. congruence.
    + discriminate.
    + right. by exists a.
  - apply synthesize_none in Hs. simpl.
    split; [|split; [done|by left]].
    destruct (Qgtb _ _) eqn:Hq.
    + split; [|done]. intros _. destruct Hs; [discriminate|done].
    + split; [discriminate|]. by intros [? _].
Qed.

Lemma tick_all_or_nothing_witness :
  fst (tick firing_env no_devices) = Throw TypeError /\
  snd (tick firing_env no_devices) = no_devices.
Proof.
  destruct (tick_all_or_nothing firing_env no_devices) as (Hthrow & Hsame & _).
  assert (H : fst (tick firing_env no_devices) = Throw TypeError).
  { apply Hthrow. split; reflexivity. }
  split; [exact H | exact (Hsame H)].
Defined.

(** X2.  In every state the application can reach, the device set is the
    seed device set, and a firing of the timer whose device draw lies in
    [0,1) returns normally: the [TypeError] of the callback is out of
    reach. *)
Theorem reachable_tick_never_throws (h : Q -> string) (s : AppState) (env : TickEnv) :
  reachable h s ->
  (0 <= tick_random env 1%nat < 1)%Q ->
  devices s = mockDevices h /\ fst (tick env s) = Ok tt.
Proof.
  intros Hr Hdraw. pose proof (reachable_devices h s Hr) as Hd.
  split; [done|]. rewrite tick_eq.
  destruct (synthesize (devices s) env) eqn:Hs; [done|].
  apply synthesize_none in Hs as [->|Hn]; [done|].
  destruct (randomDevice_total (devices s) env) as (d & Hsome & _);
    [by rewrite Hd | done | congruence].
Qed.

Lemma reachable_tick_never_throws_witness :
  reachable sample_hoursAgo (step sample_state (Tick firing_env)) /\
  (0 <= tick_random second_env 1%nat < 1)%Q /\
  fst (tick second_env (step sample_state (Tick firing_env))) = Ok tt.
Proof.
  assert (Hr : reachable sample_hoursAgo (step sample_state (Tick firing_env)))
    by apply reachable_step, reachable_init.
  assert (Hd : (0 <= tick_random second_env 1%nat < 1)%Q)
    by exact (proj2 sample_draws_in_range 1%nat).
  split; [exact Hr|]. split; [exact Hd|].
  apply (reachable_tick_never_throws sample_hoursAgo _ second_env Hr Hd).
Defined.

Lemma gate_head_inv h s a :
  reachable h s -> highSeverityAlert s = Some a -> head (alerts s) = Some a.
Proof.
  intros Hr. revert a. induction Hr as [|s e _ IH]; intros a; [discriminate|].
  rewrite step_gate, step_alerts. destruct e; try apply IH; [|discriminate].
  destruct (synthesize (devices s) env) as [b|]; [|apply IH].
  by intros [= ->].
Qed.

(** X3.  In every reachable state the alert of the notification modal, if
    there is one, is the first alert of the ledger: the modal always shows
    the newest alert. *)
Theorem reachable_gate_is_newest (h : Q -> string) (s : AppState) (a : Alert) :
  reachable h s ->
  highSeverityAlert s = Some a ->
  exists older, alerts s = a :: older.
Proof.
  intros Hr Hg. apply (gate_head_inv h s a Hr) in Hg.
  destruct (alerts s) as [|b older]; [discriminate|].
  injection Hg as ->. by exists older.
Qed.

Lemma reachable_gate_is_newest_witness :
  reachable sample_hoursAgo (run sample_state [Tick firing_env; Navigate Alerts]) /\
  highSeverityAlert (run sample_state [Tick firing_env; Navigate Alerts]) = Some first_alert /\
  exists older, alerts (run sample_state [Tick firing_env; Navigate Alerts])
                = first_alert :: older.
Proof.
  assert (Hr : reachable sample_hoursAgo (run sample_state [Tick firing_env; Navigate Alerts]))
    by apply reachable_step, reachable_step, reachable_init.
  assert (Hg : highSeverityAlert (run sample_state [Tick firing_env; Navigate Alerts])
               = Some first_alert) by (vm_compute; reflexivity).
  split; [exact Hr|]. split; [exact Hg|].
  apply (reachable_gate_is_newest sample_hoursAgo _ first_alert Hr Hg).
Defined.

Lemma ledger_names_devices h s a :
  reachable h s -> a ∈ alerts s ->
  exists d, d ∈ devices s /\ device_id d = deviceId a.
Proof.
  intros Hr. revert a. induction Hr as [|s e _ IH]; intros a.
  - simpl. unfold mockAlerts, mockDevices. rewrite !elem_of_cons.
    intros [->|[->|[->|[->|[->|H]]]]]; [..|by apply elem_of_nil in H].
    + eexists. split; [apply (list_elem_of_lookup_2 _ 0%nat)|]; reflexivity.
    + eexists. split; [apply (list_elem_of_lookup_2 _ 1%nat)|]; reflexivity.
    + eexists. split; [apply (list_elem_of_lookup_2 _ 2%nat)|]; reflexivity.
    + eexists. split; [apply (list_elem_of_lookup_2 _ 0%nat)|]; reflexivity.
    + eexists. split; [apply (list_elem_of_lookup_2 _ 3%nat)|]; reflexivity.
  - rewrite step_alerts, step_devices. destruct e; try apply IH.
    destruct (synthesize (devices s) env) as [b|] eqn:Hs; [|apply IH].
    rewrite elem_of_cons. intros [->|Ha]; [|by apply IH].
    apply synthesize_some in Hs as (_ & d & _ & Hin & ->). by exists d.
Qed.

(** X4.  In every reachable state each alert of the ledger names a device
    of the device set: the seed alerts name seed devices, and a synthesized
    alert takes the id of the device it was drawn for.  So the device the
    notification modal mentions always exists. *)
Theorem reachable_alerts_name_devices (h : Q -> string) (s : AppState) (a : Alert) :
  reachable h s ->
  a ∈ alerts s \/ highSeverityAlert s = Some a ->
  exists d, d ∈ devices s /\ device_id d = deviceId a.
Proof.
  intros Hr [Hin|Hg]; [by apply (ledger_names_devices h)|].
  apply (ledger_names_devices h s a Hr).
  apply (gate_head_inv h s a Hr) in Hg.
  destruct (alerts s) as [|b l]; [discriminate|].
  injection Hg as ->. apply list_elem_of_here.
Qed.

Lemma reachable_alerts_name_devices_witness :
  reachable sample_hoursAgo (step sample_state (Tick firing_env)) /\
  first_alert ∈ alerts (step sample_state (Tick firing_env)) /\
  exists d, d ∈ devices (step sample_state (Tick firing_env)) /\
            device_id d = deviceId first_alert.
Proof.
  assert (Hr : reachable sample_hoursAgo (step sample_state (Tick firing_env)))
    by apply reachable_step, reachable_init.
  assert (Hin : first_alert ∈ alerts (step sample_state (Tick firing_env))).
  { replace (alerts (step sample_state (Tick firing_env)))
      with (first_alert :: mockAlerts sample_hoursAgo) by (vm_compute; reflexivity).
    apply list_elem_of_here. }
  split; [exact Hr|]. split; [exact Hin|].
  apply (reachable_alerts_name_devices sample_hoursAgo _ first_alert Hr (or_introl Hin)).
Defined.

(** X5.  The dashboard's recent-alerts card, in every reachable state: it
    lists exactly three alerts, the first three of the ledger; a firing tick
    puts its alert on top and moves the former first two down; and the
    alert of the notification modal, when there is one, is the first of the
    three. *)
Theorem dashboard_recent_alerts (h : Q -> string) (s : AppState) :
  reachable h s ->
  length (recent 3 (alerts s)) = 3%nat /\
  recent 3 (alerts s) `prefix_of` alerts s /\
  (forall env a,
      synthesize (devices s) env = Some a ->
      recent 3 (alerts (step s (Tick env))) = a :: recent 2 (alerts s)) /\
  (forall a, highSeverityAlert s = Some a -> head (recent 3 (alerts s)) = Some a).
Proof.
  intros Hr. split; [|split; [|split]].
  - destruct (reachable_ledger_suffix h s Hr) as [newer ->].
    unfold recent. rewrite length_take, length_app.
    assert (Hseed : length (mockAlerts h) = 5%nat) by reflexivity. lia.
  - apply prefix_take.
  - intros env a Ha. by rewrite step_alerts, Ha.
  - intros a Hg. apply (gate_head_inv h s a Hr) in Hg.
    by destruct (alerts s).
Qed.

Lemma dashboard_recent_alerts_witness :
  reachable sample_hoursAgo (step sample_state (Tick firing_env)) /\
  recent 3 (alerts (step sample_state (Tick firing_env)))
  = first_alert :: recent 2 (mockAlerts sample_hoursAgo) /\
  length (recent 3 (alerts (step sample_state (Tick firing_env)))) = 3%nat.
Proof.
  assert (Hr : reachable sample_hoursAgo (step sample_state (Tick firing_env)))
    by apply reachable_step, reachable_init.
  split; [exact Hr|]. split; [vm_compute; reflexivity|].
  apply (dashboard_recent_alerts sample_hoursAgo _ Hr).
Defined.

(** ** Identifiers of synthesized alerts *)

Lemma Number_toString_inj z1 z2 : Number_toString z1 = Number_toString z2 -> z1 = z2.
Proof.
  unfold Number_toString. intros H.
  assert (Hok : forall z, NilZero.int_of_string (NilZero.string_of_int (Z.to_int z))
                          = Some (Z.to_int z)).
  { intros z. apply NilZero.isi; destruct z; simpl; try discriminate;
      intros [= Hp]; by apply DecimalPos.Unsigned.to_uint_nonnil in Hp. }
  apply (f_equal NilZero.int_of_string) in H. rewrite !Hok in H.
  injection H as H. apply (f_equal Z.of_int) in H.
  by rewrite !DecimalZ.of_to in H.
Qed.

Lemma seed_ids_not_generated :
  forallb
    (fun n => negb (existsb (String.eqb ("A" +:+ Number_toString (Z.of_nat n)))
                      ["A001"; "A002"; "A003"; "A004"; "A005"]))
    (List.seq 0 1000) = true.
Proof. vm_compute. reflexivity. Qed.

(** X6.  The identifier of a synthesized alert whose identifier draw lies
    in [0,1) is the letter A followed by the decimal notation of an integer
    between 0 and 999; it is none of the seed alerts' identifiers (A001 to
    A005). *)
Theorem synthesized_id_range (h : Q -> string) (devs : list Device)
    (env : TickEnv) (a : Alert) :
  (0 <= tick_random env 2%nat < 1)%Q ->
  synthesize devs env = Some a ->
  (exists k, (0 <= k < 1000)%Z /\ alert_id a = "A" +:+ Number_toString k) /\
  alert_id a ∉ (alert_id <$> mockAlerts h).
Proof.
  intros Hdraw Hs.
  apply synthesize_some in Hs as (_ & d & _ & _ & ->). simpl alert_id.
  pose proof (floor_scaled_draw _ 1000 Hdraw ltac:(lia)) as Hk.
  change (inject_Z (Z.of_nat 1000)) with 1000%Q in Hk.
  set (k := Math_floor (tick_random env 2%nat * 1000)%Q) in *.
  split; [by exists k|].
  pose proof seed_ids_not_generated as Hall.
  rewrite forallb_forall in Hall.
  specialize (Hall (Z.to_nat k)). rewrite Z2Nat.id in Hall by lia.
  assert (Hin : In (Z.to_nat k) (List.seq 0 1000)) by (apply in_seq; lia).
  apply Hall, negb_true_iff in Hin.
  intros Hel. apply list_elem_of_In in Hel.
  assert (Hex : existsb (String.eqb ("A" +:+ Number_toString k))
                  ["A001"; "A002"; "A003"; "A004"; "A005"] = true).
  { apply existsb_exists. exists ("A" +:+ Number_toString k).
    split; [exact Hel | apply String.eqb_refl]. }
  congruence.
Qed.

Lemma synthesized_id_range_witness :
  (0 <= tick_random second_env 2%nat < 1)%Q /\
  synthesize (mockDevices sample_hoursAgo) second_env = Some second_alert /\
  alert_id second_alert ∉ (alert_id <$> mockAlerts sample_hoursAgo).
Proof.
  assert (Hd : (0 <= tick_random second_env 2%nat < 1)%Q)
    by exact (proj2 sample_draws_in_range 2%nat).
  assert (Hs : synthesize (mockDevices sample_hoursAgo) second_env = Some second_alert)
    by (vm_compute; reflexivity).
  split; [exact Hd|]. split; [exact Hs|].
  apply (synthesized_id_range sample_hoursAgo _ second_env second_alert Hd Hs).
Defined.

(** X7.  Identifiers are not unique: two synthesized alerts have the same
    identifier exactly when [Math.floor] of their identifier draws times
    1000 agree, whatever their devices, timestamps and positions. *)
Theorem synthesized_id_collision (devs : list Device) (env1 env2 : TickEnv)
    (a1 a2 : Alert) :
  synthesize devs env1 = Some a1 ->
  synthesize devs env2 = Some a2 ->
  (alert_id a1 = alert_id a2 <->
   Math_floor (tick_random env1 2%nat * 1000)%Q
   = Math_floor (tick_random env2 2%nat * 1000)%Q).
Proof.
  intros H1 H2.
  apply synthesize_some in H1 as (_ & d1 & _ & _ & ->).
  apply synthesize_some in H2 as (_ & d2 & _ & _ & ->).
  cbn [alert_id]. split.
  - intros H. apply Number_toString_inj. simpl in H. by injection H.
  - intros H. by rewrite H.
Qed.

Lemma synthesized_id_collision_witness :
  synthesize (mockDevices sample_hoursAgo) firing_env = Some first_alert /\
  synthesize (mockDevices sample_hoursAgo) colliding_env = Some colliding_alert /\
  first_alert <> colliding_alert /\
  alert_id first_alert = alert_id colliding_alert.
Proof.
  assert (H1 : synthesize (mockDevices sample_hoursAgo) firing_env = Some first_alert)
    by (vm_compute; reflexivity).
  assert (H2 : synthesize (mockDevices sample_hoursAgo) colliding_env = Some colliding_alert)
    by (vm_compute; reflexivity).
  split; [exact H1|]. split; [exact H2|]. split; [discriminate|].
  apply (synthesized_id_collision _ firing_env colliding_env _ _ H1 H2).
  vm_compute. reflexivity.
Defined.

(** X8.  What an event leaves alone.  No event changes the device set.  A
    firing of the timer and an acknowledge change neither the page, nor the
    sidebar, nor the selected device; an acknowledge keeps the ledger (the
    acknowledged alert stays in it).  Selecting a device, closing its
    modal, navigating and the sidebar buttons change neither the ledger nor
    the gate. *)
Theorem event_frame (s : AppState) (e : Event) :
  devices (step s e) = devices s /\
  match e with
  | Tick _ =>
      activePage (step s e) = activePage s /\
      isSidebarOpen (step s e) = isSidebarOpen s /\
      selectedDevice (step s e) = selectedDevice s
  | Acknowledge =>
      activePage (step s e) = activePage s /\
      isSidebarOpen (step s e) = isSidebarOpen s /\
      selectedDevice (step s e) = selectedDevice s /\
      alerts (step s e) = alerts s
  | SelectDevice _ | CloseDeviceDetail =>
      alerts (step s e) = alerts s /\
      highSeverityAlert (step s e) = highSeverityAlert s /\
      activePage (step s e) = activePage s /\
      isSidebarOpen (step s e) = isSidebarOpen s
  | Navigate _ | OpenSidebar | CloseSidebar =>
      alerts (step s e) = alerts s /\
      highSeverityAlert (step s e) = highSeverityAlert s /\
      selectedDevice (step s e) = selectedDevice s
  end.
Proof.
  split; [apply step_devices|].
  destruct e; try done.
  simpl. rewrite tick_eq. by destruct (synthesize (devices s) env).
Qed.

(** * Further properties of the views *)

(** X9.  The alert list of the device detail modal.  For a selected
    device the modal gets a list; its "no alerts" line is rendered exactly
    when no alert of the ledger names the device; and a firing of the timer
    puts its alert on top of the list when it was drawn for the selected
    device and leaves the list as it is otherwise. *)
Theorem detail_modal_alert_list (s : AppState) (d : Device) :
  selectedDevice s = Some d ->
  exists l,
    DeviceDetailModal_alerts s = Some l /\
    (noAlertsLine l = true <-> forall a, a ∈ alerts s -> deviceId a <> device_id d) /\
    (forall env a,
        synthesize (devices s) env = Some a ->
        DeviceDetailModal_alerts (step s (Tick env))
        = Some (if String.eqb (deviceId a) (device_id d) then a :: l else l)).
Proof.
  intros Hsel. exists (byDevice (device_id d) (alerts s)).
  split; [|split].
  - unfold DeviceDetailModal_alerts. by rewrite Hsel.
  - unfold noAlertsLine. split.
    + intros Hnone a Ha Hid.
      assert (Hin : a ∈ byDevice (device_id d) (alerts s)) by by apply byDevice_elem.
      destruct (byDevice (device_id d) (alerts s)); [by apply elem_of_nil in Hin|done].
    + intros Hnone.
      destruct (byDevice (device_id d) (alerts s)) as [|a l] eqn:Hl; [done|].
      assert (Hin : a ∈ byDevice (device_id d) (alerts s))
        by (rewrite Hl; apply list_elem_of_here).
      apply byDevice_elem in Hin as [Hin Hid]. by destruct (Hnone a Hin).
  - intros env a Ha. unfold DeviceDetailModal_alerts.
    simpl. rewrite tick_eq, Ha. simpl. by rewrite Hsel.
Qed.

Lemma detail_modal_alert_list_witness :
  selectedDevice (step sample_state (SelectDevice sample_device)) = Some sample_device /\
  DeviceDetailModal_alerts
    (step (step sample_state (SelectDevice sample_device)) (Tick colliding_env))
  = Some [colliding_alert].
Proof.
  split; [reflexivity|].
  destruct (detail_modal_alert_list (step sample_state (SelectDevice sample_device))
              sample_device eq_refl) as (l & Hl & _ & Htick).
  assert (Hnil : l = []) by (vm_compute in Hl; congruence).
  rewrite (Htick colliding_env colliding_alert) by (vm_compute; reflexivity).
  by rewrite Hnil.
Defined.

(** X10.  On the map page a firing of the timer adds one layer: a red
    circle of radius 200 at the new alert's position, drawn before the
    circles of the older alerts and after the device markers, which stay as
    they are. *)
Theorem map_page_new_circle (s : AppState) (env : TickEnv) (a : Alert) :
  synthesize (devices s) env = Some a ->
  let s' := step s (Tick env) in
  renderPage_MapView (setActivePage Map s')
  = Some (MapPage_MapView (a :: alerts s) (devices s)) /\
  syncLayers (devices s') (alerts s')
  = (marker_spec <$> devices s) ++
    Circle (lat (alert_location a), lng (alert_location a)) "red" "red" 0.3 200
           ("<b>Alert:</b> " +:+ alert_id a +:+ "<br><b>Severity:</b> High")
    :: (circle_spec <$> List.filter not_resolved (alerts s)) /\
  length (syncLayers (devices s') (alerts s'))
  = S (length (syncLayers (devices s) (alerts s))).
Proof.
  intros Ha s'.
  assert (Hal : alerts s' = a :: alerts s) by (unfold s'; by rewrite step_alerts, Ha).
  assert (Hdev : devices s' = devices s) by apply step_devices.
  pose proof (synthesize_High _ _ _ Ha) as Hsev.
  assert (Hnr : not_resolved a = true) by (unfold not_resolved; by rewrite Hsev).
  split; [|split].
  - unfold renderPage_MapView. simpl activePage. cbn [alerts devices setActivePage].
    by rewrite Hal, Hdev.
  - rewrite Hal, Hdev, syncLayers_spec. unfold overlay_spec.
    cbn [List.filter]. rewrite Hnr, fmap_cons. unfold circle_spec at 1.
    by rewrite Hsev.
  - rewrite Hal, Hdev, !syncLayers_spec. unfold overlay_spec.
    cbn [List.filter]. rewrite Hnr, fmap_cons, !length_app. simpl. lia.
Qed.

Lemma map_page_new_circle_witness :
  synthesize (devices sample_state) firing_env = Some first_alert /\
  length (syncLayers (devices (step sample_state (Tick firing_env)))
            (alerts (step sample_state (Tick firing_env)))) = 9%nat.
Proof.
  assert (H : synthesize (devices sample_state) firing_env = Some first_alert)
    by (vm_compute; reflexivity).
  split; [exact H|].
  destruct (map_page_new_circle sample_state firing_env first_alert H) as (_ & _ & Hlen).
  rewrite Hlen. reflexivity.
Defined.

(** X11.  The overlay effect is idempotent and keeps nothing of an earlier
    run: a sync after a sync gives what the second alone gives, whatever
    the props of the first; and it makes no call on the map object. *)
Theorem overlay_sync_idempotent (p1 p2 : MapProps) (st : Refs * Leaflet) :
  overlayEffect p2 (overlayEffect p1 st) = overlayEffect p2 st /\
  overlayEffect p1 (overlayEffect p1 st) = overlayEffect p1 st /\
  snd (overlayEffect p1 st) = snd st /\
  mapRef (fst (overlayEffect p1 st)) = mapRef (fst st).
Proof.
  destruct st as [r lf]. simpl.
  destruct (dataLayerRef r) as [old|] eqn:Hl; simpl; rewrite ?Hl; done.
Qed.

(** X12.  The dashboard's count of active devices is the number of green
    markers the map draws for the same device list, whatever the alerts. *)
Theorem active_devices_are_green_markers (devs : list Device) (als : list Alert) :
  length (List.filter is_green_marker (syncLayers devs als)) = activeDevices devs /\
  (activeDevices devs <= length devs)%nat.
Proof.
  rewrite syncLayers_spec. unfold overlay_spec, activeDevices.
  rewrite List.filter_app, length_app.
  assert (Hc : forall l, List.filter is_green_marker (circle_spec <$> l) = []).
  { intros l. induction l as [|a l IH]; [done|]. exact IH. }
  rewrite Hc, Nat.add_0_r. clear Hc.
  induction devs as [|d devs [IH1 IH2]]; [done|].
  simpl. unfold marker_spec at 1.
  destruct (status d); simpl;
    (split; [first [exact IH1 | exact (f_equal S IH1)] | lia]).
Qed.

(** X13.  The sidebar highlights exactly one entry, the one of the current
    page; a click on an entry makes it the highlighted one and closes the
    sidebar. *)
Theorem sidebar_highlights_current (s : AppState) :
  (exists label, highlighted s = [(activePage s, label)]) /\
  (forall item,
      item ∈ navItems ->
      highlighted (step s (navItem_onClick item)) = [item] /\
      activePage (step s (navItem_onClick item)) = fst item /\
      isSidebarOpen (step s (navItem_onClick item)) = false).
Proof.
  split.
  - unfold highlighted. destruct (activePage s); eexists; vm_compute; reflexivity.
  - intros item Hin. unfold navItems in Hin. rewrite !elem_of_cons in Hin.
    destruct Hin as [->|[->|[->|[->|[->|[->|H]]]]]]; [..|by apply elem_of_nil in H];
      repeat split; vm_compute; reflexivity.
Qed.

Lemma sidebar_highlights_current_witness :
  (Alerts, "Alerts") ∈ navItems /\
  highlighted (step sample_state (navItem_onClick (Alerts, "Alerts"))) = [(Alerts, "Alerts")].
Proof.
  assert (Hin : (Alerts, "Alerts") ∈ navItems).
  { apply (list_elem_of_lookup_2 _ 3%nat). reflexivity. }
  split; [exact Hin|].
  destruct (sidebar_highlights_current sample_state) as [_ Hclick].
  apply (Hclick _ Hin).
Defined.

(** X14.  The battery colour has three bands, red up to 20, yellow up to
    60 and green above, and never gets worse when the battery level rises. *)
Theorem batteryColor_bands (d1 d2 : Device) :
  (battery d1 <= battery d2)%Z ->
  (batteryColor_rank (batteryColor d1) <= batteryColor_rank (batteryColor d2))%nat /\
  (batteryColor d1 = "text-red-500" <-> (battery d1 <= 20)%Z) /\
  (batteryColor d1 = "text-yellow-400" <-> (20 < battery d1 <= 60)%Z) /\
  (batteryColor d1 = "text-neon-green" <-> (60 < battery d1)%Z).
Proof.
  intros Hle. unfold batteryColor.
  destruct (Z.ltb_spec 60 (battery d1)), (Z.ltb_spec 20 (battery d1)),
    (Z.ltb_spec 60 (battery d2)), (Z.ltb_spec 20 (battery d2));
    try lia; repeat split; intros;
    first [lia | discriminate | reflexivity | (vm_compute; lia)].
Qed.

Lemma batteryColor_bands_witness :
  (battery low_device <= battery sample_device)%Z /\
  (batteryColor_rank (batteryColor low_device)
   <= batteryColor_rank (batteryColor sample_device))%nat /\
  batteryColor low_device = "text-red-500".
Proof.
  assert (Hle : (battery low_device <= battery sample_device)%Z) by (simpl; lia).
  split; [exact Hle|].
  destruct (batteryColor_bands low_device sample_device Hle) as (Hrank & Hred & _).
  split; [exact Hrank|]. apply Hred. simpl. lia.
Defined.

(** X15.  The status badge of a device and its map marker have the same
    colour: the marker's colour class is the beginning of the badge's
    classes, for every status, and the badge is never the grey fallback.
    A user's Active and Inactive badges are those of Online and Offline. *)
Theorem status_badge_matches_marker (d : Device) :
  String.prefix (statusColorClass_of d) (getStatusClass (DeviceStatus_str (status d))) = true /\
  getStatusClass (DeviceStatus_str (status d)) <> "bg-gray-500/20 text-gray-400" /\
  getStatusClass "Active" = getStatusClass (DeviceStatus_str Online) /\
  getStatusClass "Inactive" = getStatusClass (DeviceStatus_str Offline).
Proof.
  unfold statusColorClass_of. destruct (status d); repeat split; done.
Qed.

(** X16.  The badge classes tell the four severities apart: two severities
    with the same classes are the same severity, and no severity gets the
    grey fallback. *)
Theorem severity_badges_distinct (a b : AlertSeverity) :
  (getSeverityClass (AlertSeverity_str a) = getSeverityClass (AlertSeverity_str b) -> a = b) /\
  getSeverityClass (AlertSeverity_str a) <> "bg-gray-500/20 text-gray-400 border-gray-500/30".
Proof. destruct a, b; split; (done || discriminate). Qed.

(** * Further properties of the timer and of the map resource *)

Lemma astep_armed st e :
  armed (timer_calls (snd st))
  = match fst st with AppMounted i => [(i, 15000%Z)] | AppUnmounted => [] end ->
  armed (timer_calls (snd (astep st e)))
  = match fst (astep st e) with AppMounted i => [(i, 15000%Z)] | AppUnmounted => [] end.
Proof.
  destruct st as [[|i] tm], e; simpl; intros H; rewrite ?H; simpl;
    rewrite ?Nat.eqb_refl; done.
Qed.

Lemma astep_period st e :
  Forall (fun c => match c with SetInterval _ ms => ms = 15000%Z | _ => True end)
    (timer_calls (snd st)) ->
  Forall (fun c => match c with SetInterval _ ms => ms = 15000%Z | _ => True end)
    (timer_calls (snd (astep st e))).
Proof.
  destruct st as [[|i] tm], e; simpl; intros H; repeat constructor; done.
Qed.

(** X17.  The timer of [App], under any sequence of mounts, changes of
    [devices] and unmounts: while the component is mounted exactly one
    interval is armed, the one the pending clean-up will clear, and its
    period is 15000; once it is unmounted none is armed.  No interval is
    ever armed with another period. *)
Theorem interval_armed_iff_mounted (evs : list AppLifeEvent) :
  let st := arun (AppUnmounted, Timers0) evs in
  armed (timer_calls (snd st))
  = match fst st with AppMounted i => [(i, 15000%Z)] | AppUnmounted => [] end /\
  Forall (fun c => match c with SetInterval _ ms => ms = 15000%Z | _ => True end)
    (timer_calls (snd st)).
Proof.
  simpl. unfold arun.
  assert (Hgen : forall st,
    armed (timer_calls (snd st))
    = match fst st with AppMounted i => [(i, 15000%Z)] | AppUnmounted => [] end /\
    Forall (fun c => match c with SetInterval _ ms => ms = 15000%Z | _ => True end)
      (timer_calls (snd st)) ->
    armed (timer_calls (snd (foldl astep st evs)))
    = match fst (foldl astep st evs) with
      | AppMounted i => [(i, 15000%Z)] | AppUnmounted => [] end /\
    Forall (fun c => match c with SetInterval _ ms => ms = 15000%Z | _ => True end)
      (timer_calls (snd (foldl astep st evs)))).
  { induction evs as [|e evs IH]; intros st Hst; [done|].
    simpl. apply IH. destruct Hst as [Ha Hp].
    split; [by apply astep_armed | by apply astep_period]. }
  apply Hgen. split; [done|constructor].
Qed.

(** ** The calls one life-cycle event adds to the Leaflet log *)

Lemma lstep_new_calls st e :
  exists new,
    calls (snd (lstep st e)) = new ++ calls (snd st) /\
    (new = [] \/
     (exists m c z, new = [SetView m c z] /\ live_map (fst st) = Some m) \/
     (exists m, new = [RemoveMap m] /\ live_map (fst st) = Some m) \/
     (exists c p, fst st = Unmounted /\ new = mount_calls (next_map (snd st)) c p)).
Proof.
  destruct st as [[|r] lf], e as [c p|p cam ov|].
  - rewrite lstep_mount. exists (mount_calls (next_map lf) c p).
    split; [done|]. right; right; right. by exists c, p.
  - exists []. by split; [|left].
  - exists []. by split; [|left].
  - exists []. by split; [|left].
  - unfold lstep. simpl.
    destruct cam, ov, (mapRef r) as [m|] eqn:Hm, (dataLayerRef r) as [old|] eqn:Hl;
      simpl; rewrite ?Hm, ?Hl; simpl;
      first [ by (exists []; split; [|left])
            | by (eexists [_]; split; [done|]; right; left; eauto) ].
  - rewrite lstep_unmount. simpl. destruct (mapRef r) as [m|] eqn:Hm.
    + exists [RemoveMap m]. split; [done|]. right; right; left. eauto.
    + exists []. by split; [|left].
Qed.

Lemma filter_none_existsb {A} (f : A -> bool) (l : list A) :
  length (List.filter f l) = 0%nat -> existsb f l = false.
Proof.
  induction l as [|x l IH]; [done|]. simpl.
  destruct (f x); [discriminate|]. exact IH.
Qed.

(** A live map and the next fresh handle have no removal in the log. *)
Lemma lifecycle_inv_not_removed sf lf :
  lifecycle_inv (sf, lf) ->
  existsb (is_remove_of (next_map lf)) (calls lf) = false /\
  forall m, live_map sf = Some m -> existsb (is_remove_of m) (calls lf) = false.
Proof.
  intros [Hsf Hcnt]. split.
  - apply filter_none_existsb. destruct (Hcnt (next_map lf)) as [Hc Hd].
    unfold disposals_of in Hd. rewrite Hd, Hc, Nat.ltb_irrefl.
    by destruct (decide _).
  - intros m Hm. apply filter_none_existsb. destruct (Hcnt m) as [_ Hd].
    unfold disposals_of in Hd. rewrite Hd. by rewrite decide_True.
Qed.

Lemma filter_some_existsb {A} (f : A -> bool) (l : list A) :
  length (List.filter f l) = 1%nat -> existsb f l = true.
Proof.
  induction l as [|x l IH]; [done|]. simpl.
  destruct (f x); [done|]. exact IH.
Qed.

(** The map of a mounted surface has its creation in the log. *)
Lemma lifecycle_inv_created sf lf m :
  lifecycle_inv (sf, lf) -> live_map sf = Some m ->
  existsb (is_create_of m) (calls lf) = true.
Proof.
  intros [Hsf Hcnt] Hm. apply filter_some_existsb.
  destruct (Hcnt m) as [Hc _]. unfold creations_of in Hc. rewrite Hc.
  destruct sf as [|r]; [discriminate|]. simpl in Hm.
  destruct Hsf as [(m0 & Hm0 & Hlt) _].
  assert (m = m0) as -> by congruence.
  by apply Nat.ltb_lt in Hlt as ->.
Qed.

Lemma log_well_formed_step st e :
  lifecycle_inv st ->
  no_use_after_remove (calls (snd st)) = true /\
  no_use_before_create (calls (snd st)) = true ->
  no_use_after_remove (calls (snd (lstep st e))) = true /\
  no_use_before_create (calls (snd (lstep st e))) = true.
Proof.
  destruct st as [sf lf]. intros Hinv [Hok Hok'].
  destruct (lifecycle_inv_not_removed sf lf Hinv) as [Hfresh Hlive].
  pose proof (lifecycle_inv_created sf lf) as Hcreated.
  destruct (lstep_new_calls (sf, lf) e) as (new & -> & Hnew). simpl in *.
  destruct Hnew as [->|[(m & c & z & -> & Hm)|[(m & -> & Hm)|(c & p & _ & ->)]]]; simpl.
  - done.
  - by rewrite (Hlive m Hm), (Hcreated m Hinv Hm), Hok, Hok'.
  - by rewrite (Hlive m Hm), (Hcreated m Hinv Hm), Hok, Hok'.
  - by rewrite Hfresh, Hok, Hok', Nat.eqb_refl.
Qed.

(** X18.  The synchronous calls on map objects, under any sequence of
    mounts, re-renders and unmounts of one surface: every call is made on
    a map between its creation and its removal.  No call is made on a map
    that was removed before (so no map is removed twice and the camera is
    never set on a removed map), and none on a map that was not created
    yet.  (The deferred [invalidateSize] appears in the log where it is
    scheduled.) *)
Theorem map_calls_within_lifetime (evs : list LifeEvent) :
  no_use_after_remove (calls (snd (lrun (Unmounted, Leaflet0) evs))) = true /\
  no_use_before_create (calls (snd (lrun (Unmounted, Leaflet0) evs))) = true.
Proof.
  assert (Hgen : forall st,
    lifecycle_inv st ->
    no_use_after_remove (calls (snd st)) = true /\
    no_use_before_create (calls (snd st)) = true ->
    no_use_after_remove (calls (snd (lrun st evs))) = true /\
    no_use_before_create (calls (snd (lrun st evs))) = true).
  { induction evs as [|e evs IH]; intros st Hinv Hok; [done|].
    apply IH; [by apply lifecycle_inv_step | by apply log_well_formed_step]. }
  apply Hgen; [apply lifecycle_inv_init | done].
Qed.

Lemma count_calls_app f new lf lf' :
  calls lf' = new ++ calls lf ->
  count_calls f lf' = (length (List.filter f new) + count_calls f lf)%nat.
Proof. unfold count_calls. intros ->. by rewrite List.filter_app, length_app. Qed.

Lemma setup_calls_step st e m :
  count_calls (is_tileLayer_of m) (snd st) = creations_of m (snd st) /\
  count_calls (is_layerGroup_of m) (snd st) = creations_of m (snd st) /\
  count_calls (is_invalidate_of m) (snd st) = creations_of m (snd st) /\
  forallb is_invalidate_100 (calls (snd st)) = true ->
  count_calls (is_tileLayer_of m) (snd (lstep st e)) = creations_of m (snd (lstep st e)) /\
  count_calls (is_layerGroup_of m) (snd (lstep st e)) = creations_of m (snd (lstep st e)) /\
  count_calls (is_invalidate_of m) (snd (lstep st e)) = creations_of m (snd (lstep st e)) /\
  forallb is_invalidate_100 (calls (snd (lstep st e))) = true.
Proof.
  intros (Ht & Hg & Hi & Hall).
  destruct (lstep_new_calls st e) as (new & Hcalls & Hnew).
  unfold creations_of. fold (count_calls (is_create_of m) (snd (lstep st e))).
  rewrite (count_calls_app (is_tileLayer_of m) new (snd st)),
    (count_calls_app (is_layerGroup_of m) new (snd st)),
    (count_calls_app (is_invalidate_of m) new (snd st)),
    (count_calls_app (is_create_of m) new (snd st)) by done.
  unfold creations_of in Ht, Hg, Hi. fold (count_calls (is_create_of m) (snd st)) in Ht, Hg, Hi.
  rewrite Ht, Hg, Hi, Hcalls, forallb_app, Hall, andb_true_r.
  destruct Hnew as [->|[(m' & c & z & -> & _)|[(m' & -> & _)|(c & p & _ & ->)]]];
    simpl; try done.
  destruct (m =? next_map (snd st))%nat; done.
Qed.

(** X19.  Every map that is created gets its tile layer, its data layer
    group and one deferred [invalidateSize], and nothing else ever adds
    one: for each handle the log holds as many of each as creations of the
    handle.  The deferral is always 100 ms. *)
Theorem map_setup_once_per_creation (evs : list LifeEvent) (m : MapId) :
  let lf := snd (lrun (Unmounted, Leaflet0) evs) in
  count_calls (is_tileLayer_of m) lf = creations_of m lf /\
  count_calls (is_layerGroup_of m) lf = creations_of m lf /\
  count_calls (is_invalidate_of m) lf = creations_of m lf /\
  forallb is_invalidate_100 (calls lf) = true.
Proof.
  simpl.
  assert (Hgen : forall st,
    count_calls (is_tileLayer_of m) (snd st) = creations_of m (snd st) /\
    count_calls (is_layerGroup_of m) (snd st) = creations_of m (snd st) /\
    count_calls (is_invalidate_of m) (snd st) = creations_of m (snd st) /\
    forallb is_invalidate_100 (calls (snd st)) = true ->
    count_calls (is_tileLayer_of m) (snd (lrun st evs)) = creations_of m (snd (lrun st evs)) /\
    count_calls (is_layerGroup_of m) (snd (lrun st evs)) = creations_of m (snd (lrun st evs)) /\
    count_calls (is_invalidate_of m) (snd (lrun st evs)) = creations_of m (snd (lrun st evs)) /\
    forallb is_invalidate_100 (calls (snd (lrun st evs))) = true).
  { induction evs as [|e evs IH]; intros st Hst; [done|].
    apply IH. by apply setup_calls_step. }
  by apply Hgen.
Qed.

(** ** The surface follows its props *)

Lemma synced_surface_step st cur e :
  match fst st, cur with
  | Unmounted, None => True
  | Mounted r, Some (pc, po) =>
      (exists m, mapRef r = Some m /\
                 head (calls (snd st)) = Some (SetView m (mp_center pc) (mp_zoom pc))) /\
      dataLayerRef r = Some (overlay_spec (mp_devices po) (mp_alerts po))
  | _, _ => False
  end ->
  match fst (lstep st e), synced_step cur e with
  | Unmounted, None => True
  | Mounted r, Some (pc, po) =>
      (exists m, mapRef r = Some m /\
                 head (calls (snd (lstep st e)))
                 = Some (SetView m (mp_center pc) (mp_zoom pc))) /\
      dataLayerRef r = Some (overlay_spec (mp_devices po) (mp_alerts po))
  | _, _ => False
  end.
Proof.
  destruct st as [[|r] lf], cur as [[pc po]|]; simpl fst; try done.
  - intros _. destruct e as [c p|p cam ov|]; try done.
    rewrite lstep_mount. simpl. split; [by eexists|]. by rewrite syncLayers_spec.
  - intros [(m & Hm & Hhead) Hl].
    destruct e as [c p|p cam ov|]; simpl synced_step.
    + simpl. split; [by exists m|done].
    + unfold lstep. simpl. rewrite Hm.
      destruct cam, ov; simpl; rewrite ?Hl, ?Hm; simpl;
        (split; [by exists m | by rewrite ?syncLayers_spec]).
    + by rewrite lstep_unmount.
Qed.

(** X20.  A mounted map shows its latest props.  After any sequence of
    life-cycle events the surface is mounted exactly when the sequence left
    it so; then the most recent call on the map is the [setView] to the
    centre and zoom of the last props whose camera effect ran, and the
    layer group holds the markers and circles of the last props whose
    overlay effect ran, with nothing left from earlier props. *)
Theorem surface_shows_latest_props (evs : list LifeEvent) :
  match fst (lrun (Unmounted, Leaflet0) evs), synced evs with
  | Unmounted, None => True
  | Mounted r, Some (pc, po) =>
      (exists m, mapRef r = Some m /\
                 head (calls (snd (lrun (Unmounted, Leaflet0) evs)))
                 = Some (SetView m (mp_center pc) (mp_zoom pc))) /\
      dataLayerRef r = Some (overlay_spec (mp_devices po) (mp_alerts po))
  | _, _ => False
  end.
Proof.
  unfold synced, lrun.
  assert (Hgen : forall st cur,
    match fst st, cur with
    | Unmounted, None => True
    | Mounted r, Some (pc, po) =>
        (exists m, mapRef r = Some m /\
                   head (calls (snd st)) = Some (SetView m (mp_center pc) (mp_zoom pc))) /\
        dataLayerRef r = Some (overlay_spec (mp_devices po) (mp_alerts po))
    | _, _ => False
    end ->
    match fst (foldl lstep st evs), foldl synced_step cur evs with
    | Unmounted, None => True
    | Mounted r, Some (pc, po) =>
        (exists m, mapRef r = Some m /\
                   head (calls (snd (foldl lstep st evs)))
                   = Some (SetView m (mp_center pc) (mp_zoom pc))) /\
        dataLayerRef r = Some (overlay_spec (mp_devices po) (mp_alerts po))
    | _, _ => False
    end).
  { induction evs as [|e evs IH]; intros st cur Hst; [done|].
    simpl. apply IH. by apply synced_surface_step. }
  by apply Hgen.
Qed.
